(** * RV32IMAFD interpreter: a shallow embedding of [VirtualMachine.cpp]

    The hart state, the CSR file, the Sv32 translator and the step loop of
    [src/VirtualMachine.cpp] are embedded as executable Rocq definitions.
    Machine integers are [Z] with the wrap-around written out; the two
    register files are vectors of 32 lanes; the CSR file is a finite map;
    the step function lives in a state monad whose state survives a thrown
    exception, as the fields of a C++ object do. *)

From Stdlib Require Import ZArith Lia Bool List.
From stdpp Require Import base tactics option numbers fin vector gmap.

Local Open Scope Z_scope.

(** ** Machine words *)

Definition wrap8 (x : Z) : Z := x mod 2 ^ 8.
Definition wrap16 (x : Z) : Z := x mod 2 ^ 16.
Definition wrap32 (x : Z) : Z := x mod 2 ^ 32.
Definition wrap64 (x : Z) : Z := x mod 2 ^ 64.

(** Bit-field [x[lo + n - 1 : lo]]. *)
Definition bits (lo n x : Z) : Z := Z.land (Z.shiftr x lo) (2 ^ n - 1).

(** [x != 0] as C++ converts an integer to [bool]. *)
Definition nonzero (x : Z) : bool := negb (x =? 0).

(** The lambdas at the head of [VirtualMachine::Step]. *)
Definition SignExtend (value bit : Z) : Z :=
  let sign := wrap32 (Z.shiftl (2 ^ 32 - 1) bit) in
  if nonzero (Z.land value (wrap32 (Z.shiftl 1 bit))) then Z.lor value sign
  else value.

Definition AsSigned (value : Z) : Z :=
  if wrap32 value <? 2 ^ 31 then wrap32 value else wrap32 value - 2 ^ 32.

Definition AsUnsigned (value : Z) : Z := wrap32 value.

(** ** Register lanes *)

Abbreviation lane := (fin 32).

Definition idx (r : lane) : Z := Z.of_nat (fin_to_nat r).

Definition REG_ZERO : lane := 0%fin.
Definition REG_A0 : lane := 10%fin.

(** A float lane: 64 bits of backing store viewed as [f], [d], [u32] or
    [u64], and the single/double tag.  The 32-bit views overlay the low half
    of the backing store (little-endian host). *)
Record Float := mkFloat { u64 : Z; is_double : bool }.

Definition u32 (v : Float) : Z := wrap32 (u64 v).
Definition upper32 (v : Float) : Z := Z.shiftr (wrap64 (u64 v)) 32.

Definition set_u64 (x : Z) (v : Float) : Float :=
  {| u64 := wrap64 x; is_double := is_double v |}.

Definition set_u32 (x : Z) (v : Float) : Float :=
  {| u64 := Z.lor (Z.shiftl (upper32 v) 32) (wrap32 x);
     is_double := is_double v |}.

Definition set_is_double (b : bool) (v : Float) : Float :=
  {| u64 := u64 v; is_double := b |}.

(** ** Decoded instructions *)

Inductive InstrType :=
| LUI | AUIPC | JAL | JALR | BEQ | BNE | BLT | BGE | BLTU | BGEU
| LB | LH | LW | LBU | LHU | SB | SH | SW
| ADDI | SLTI | SLTIU | XORI | ORI | ANDI | SLLI | SRLI | SRAI
| ADD | SUB | SLL | SLT | SLTU | XOR | SRL | SRA | OR | AND
| FENCE | ECALL | EBREAK
| CSRRW | CSRRS | CSRRC | CSRRWI | CSRRSI | CSRRCI
| MUL | MULH | MULHSU | MULHU | DIV | DIVU | REM | REMU
| LR_W | SC_W | AMOSWAP_W | AMOADD_W | AMOXOR_W | AMOAND_W | AMOOR_W
| AMOMIN_W | AMOMAX_W | AMOMINU_W | AMOMAXU_W
| FLW | FSW | FMADD_S | FMSUB_S | FNMSUB_S | FNMADD_S
| FADD_S | FSUB_S | FMUL_S | FDIV_S | FSQRT_S
| FSGNJ_S | FSGNJN_S | FSGNJX_S | FMIN_S | FMAX_S
| FCVT_W_S | FCVT_WU_S | FMV_X_W | FEQ_S | FLT_S | FLE_S | FCLASS_S
| FCVT_S_W | FCVT_S_WU | FMV_W_X
| FLD | FSD | FMADD_D | FMSUB_D | FNMSUB_D | FNMADD_D
| FADD_D | FSUB_D | FMUL_D | FDIV_D | FSQRT_D
| FSGNJ_D | FSGNJN_D | FSGNJX_D | FMIN_D | FMAX_D
| FCVT_S_D | FCVT_D_S | FEQ_D | FLT_D | FLE_D | FCLASS_D
| FCVT_W_D | FCVT_WU_D | FCVT_D_W | FCVT_D_WU
| URET | SRET | MRET | WFI
| SFENCE_VMA | SINVAL_VMA | SINVAL_GVMA | SFENCE_W_INVAL | SFENCE_INVAL_IR
| CUST_TVA | INVALID.

(** The record [RVInstruction::FromUInt32] returns.  The register fields
    are the 5-bit fields of the encoding; [immediate] is the immediate
    sign-extended to 32 bits, kept as an unsigned 32-bit number. *)
Record RVInstruction := mkInstr {
  type : InstrType;
  rd : lane;
  rs1 : lane;
  rs2 : lane;
  rs3 : lane;
  immediate : Z;
  rm : Z
}.

(** The instructions of the second [switch] of the step loop: they have
    written [pc] themselves. *)
Definition writes_pc (t : InstrType) : bool :=
  match t with
  | JAL | JALR | BEQ | BGE | BGEU | BLT | BLTU | BNE => true
  | _ => false
  end.

(** ** Errors *)

(** One constructor per [throw] of the source (by message), one for an
    exception raised inside the memory bus, one for [csrs.at], one for an
    exception raised by a registered ECALL handler. *)
Inductive fault :=
| E_InvalidPC                (* "Invalid PC address" *)
| E_PCNotPresent             (* "PC address is not present" *)
| E_InvalidInstruction       (* "Invalid instruction at" *)
| E_CSRReadPrivilege         (* "CSR Read Privilege" *)
| E_ReadInvalidCSR           (* "Read Invalid CSR" *)
| E_CSRWritePrivilege        (* "CSR Write Privilege" *)
| E_WriteInvalidCSR          (* "Write Invalid CSR" *)
| E_DivByZero                (* "Div by zero is not handled yet" *)
| E_NotImplemented           (* "Instruction not implemented" *)
| E_PPNAccessFault           (* "Address translation failed, PPN access-fault" *)
| E_PPNPageFault             (* "Address translation failed, PPN page-fault" *)
| E_PageFault                (* "Address translation failed, page-fault" *)
| E_UnknownECall             (* "called unknown ECall handler" *)
| E_Handler                  (* thrown by a registered ECALL handler *)
| E_OutOfRange               (* std::out_of_range of [csrs.at] *)
| E_Memory.                  (* thrown by the memory bus *)

(** The three ways a C++ call can end: it returns, it throws, or the
    program has no defined behaviour from there on (a shift by the width of
    the type, [INT_MIN / -1], unbounded recursion). *)
Inductive outcome (A : Type) :=
| Done (a : A)
| Throw (e : fault)
| Undefined.
Arguments Done {A} a.
Arguments Throw {A} e.
Arguments Undefined {A}.

Inductive PrivilegeLevel := User | Supervisor | Machine.

(** ** Interfaces the core consumes *)

(** The memory bus (its header [Memory.hpp] is missing from the tree): each
    operation returns [None] when the bus throws.  [PeekWord] is the
    non-faulting read: [None] stands for [present == false]. *)
Class MemoryBus (Memory : Type) := {
  ReadByte : Z → Memory → option Z;
  ReadHalf : Z → Memory → option Z;
  ReadWord : Z → Memory → option Z;
  WriteByte : Z → Z → Memory → option Memory;
  WriteHalf : Z → Z → Memory → option Memory;
  WriteWord : Z → Z → Memory → option Memory;
  PeekWord : Z → Memory → option Z;
  ReadWordReserved : Z → Z → Memory → option (Z * Memory);
  WriteWordConditional : Z → Z → Z → Memory → option (bool * Memory);
  AtomicSwap : Z → Z → Memory → option (Z * Memory);
  AtomicAdd : Z → Z → Memory → option (Z * Memory);
  AtomicXor : Z → Z → Memory → option (Z * Memory);
  AtomicAnd : Z → Z → Memory → option (Z * Memory);
  AtomicOr : Z → Z → Memory → option (Z * Memory);
  AtomicMin : Z → Z → Memory → option (Z * Memory);
  AtomicMax : Z → Z → Memory → option (Z * Memory);
  AtomicMinU : Z → Z → Memory → option (Z * Memory);
  AtomicMaxU : Z → Z → Memory → option (Z * Memory)
}.

Inductive fwidth := W32 | W64.

(** The floating-point expressions the source hands to the host FPU.  Each
    takes and returns IEEE-754 bit patterns (integers for the conversions)
    and may change the host's sticky exception flags. *)
Inductive fexpr :=
| X_madd (w : fwidth)        (* a * b + c *)
| X_msub (w : fwidth)        (* a * b - c *)
| X_nmsub (w : fwidth)       (* -(a * b) + c *)
| X_nmadd (w : fwidth)       (* -(a * b) - c *)
| X_add (w : fwidth)
| X_sub (w : fwidth)
| X_mul (w : fwidth)
| X_div (w : fwidth)
| X_sqrt (w : fwidth)
| X_lt (w : fwidth)          (* a < b, 1 or 0 *)
| X_le (w : fwidth)
| X_eq (w : fwidth)
| X_to_i32 (w : fwidth)      (* int32_t val = a *)
| X_to_u32 (w : fwidth)      (* uint32_t val = a *)
| X_i32_ne (w : fwidth)      (* val != a, val an int32_t *)
| X_u32_ne (w : fwidth)      (* val != a, val a uint32_t *)
| X_of_i32 (w : fwidth)      (* a = val, val an int32_t *)
| X_of_u32 (w : fwidth)
| X_narrow                   (* float = double *)
| X_widen.                   (* double = float *)

(** The host floating-point environment ([<fenv.h>]) and FPU. *)
Class HostFP (FEnv : Type) := {
  fesetround : Z → FEnv → FEnv;
  fegetexceptflag : FEnv → Z;
  FE_TONEAREST : Z;
  FE_TOWARDZERO : Z;
  FE_DOWNWARD : Z;
  FE_UPWARD : Z;
  FE_DIVBYZERO : Z;
  FE_INEXACT : Z;
  FE_INVALID : Z;
  FE_OVERFLOW : Z;
  FE_UNDERFLOW : Z;
  default_rounding_mode : Z;
  host_eval : fexpr → list Z → FEnv → Z * FEnv
}.

(** A handler of the table [ecall_handlers]: it gets the hart id and
    references to the bus and to the two register files. *)
Definition ECallHandler (Memory : Type) : Type :=
  Z → Memory → vec Z 32 → vec Float 32 →
  outcome unit * (Memory * vec Z 32 * vec Float 32).

(** What [VirtualMachine.cpp] takes from elsewhere in the program: the
    decoder [RVInstruction::FromUInt32], the process-wide table
    [ecall_handlers], and the value of a default-constructed [Float]. *)
Class Externals (Memory : Type) := {
  FromUInt32 : Z → RVInstruction;
  ecall_handlers : gmap Z (ECallHandler Memory);
  Float_default : Float
}.

(** ** Constants of [VirtualMachine.hpp]

    The header is missing from the tree; its constants carry the numbers
    the RISC-V privileged specification assigns to the names. *)

(** Modelled from the spec: CSR address [fcsr] of the missing header. *)
Definition CSR_FCSR : Z := 0x003.
(** Modelled from the spec: CSR address [frm] of the missing header. *)
Definition CSR_FRM : Z := 0x002.
(** Modelled from the spec: CSR address [cycle] of the missing header. *)
Definition CSR_CYCLE : Z := 0xC00.
(** Modelled from the spec: CSR address [time] of the missing header. *)
Definition CSR_TIME : Z := 0xC01.
(** Modelled from the spec: CSR address [instret] of the missing header. *)
Definition CSR_INSTRET : Z := 0xC02.
(** Modelled from the spec: CSR address [cycleh] of the missing header. *)
Definition CSR_CYCLEH : Z := 0xC80.
(** Modelled from the spec: CSR address [timeh] of the missing header. *)
Definition CSR_TIMEH : Z := 0xC81.
(** Modelled from the spec: CSR address [instreth] of the missing header. *)
Definition CSR_INSTRETH : Z := 0xC82.
(** Modelled from the spec: CSR address [sstatus] of the missing header. *)
Definition CSR_SSTATUS : Z := 0x100.
(** Modelled from the spec: CSR address [sie] of the missing header. *)
Definition CSR_SIE : Z := 0x104.
(** Modelled from the spec: CSR address [stvec] of the missing header. *)
Definition CSR_STVEC : Z := 0x105.
(** Modelled from the spec: CSR address [scounteren] of the missing header. *)
Definition CSR_SCOUNTEREN : Z := 0x106.
(** Modelled from the spec: CSR address [senvcfg] of the missing header. *)
Definition CSR_SENVCFG : Z := 0x10A.
(** Modelled from the spec: CSR address [sscratch] of the missing header. *)
Definition CSR_SSCRATCH : Z := 0x140.
(** Modelled from the spec: CSR address [sepc] of the missing header. *)
Definition CSR_SEPC : Z := 0x141.
(** Modelled from the spec: CSR address [scause] of the missing header. *)
Definition CSR_SCAUSE : Z := 0x142.
(** Modelled from the spec: CSR address [stval] of the missing header. *)
Definition CSR_STVAL : Z := 0x143.
(** Modelled from the spec: CSR address [sip] of the missing header. *)
Definition CSR_SIP : Z := 0x144.
(** Modelled from the spec: CSR address [satp] of the missing header. *)
Definition CSR_SATP : Z := 0x180.
(** Modelled from the spec: CSR address [scontext] of the missing header. *)
Definition CSR_SCONTEXT : Z := 0x5A8.
(** Modelled from the spec: CSR address [mstatus] of the missing header. *)
Definition CSR_MSTATUS : Z := 0x300.
(** Modelled from the spec: CSR address [misa] of the missing header. *)
Definition CSR_MISA : Z := 0x301.
(** Modelled from the spec: CSR address [mvendorid] of the missing header. *)
Definition CSR_MVENDORID : Z := 0xF11.
(** Modelled from the spec: CSR address [marchid] of the missing header. *)
Definition CSR_MARCHID : Z := 0xF12.
(** Modelled from the spec: CSR address [mimpid] of the missing header. *)
Definition CSR_MIMPID : Z := 0xF13.
(** Modelled from the spec: CSR address [mhartid] of the missing header. *)
Definition CSR_MHARTID : Z := 0xF14.
(** Modelled from the spec: CSR address [mcycle] of the missing header. *)
Definition CSR_MCYCLE : Z := 0xB00.
(** Modelled from the spec: CSR address [minstret] of the missing header. *)
Definition CSR_MINSTRET : Z := 0xB02.
(** Modelled from the spec: CSR address [mhpmcounter3] of the missing header. *)
Definition CSR_MHPMCOUNTER3 : Z := 0xB03.
(** Modelled from the spec: CSR address [mcycleh] of the missing header. *)
Definition CSR_MCYCLEH : Z := 0xB80.
(** Modelled from the spec: CSR address [minstreth] of the missing header. *)
Definition CSR_MINSTRETH : Z := 0xB82.
(** Modelled from the spec: CSR address [mhpmcounter3h] of the missing header. *)
Definition CSR_MHPMCOUNTER3H : Z := 0xB83.
(** Modelled from the spec: CSR address [mhpmevent3] of the missing header. *)
Definition CSR_MHPMEVENT3 : Z := 0x323.
(** Modelled from the spec: number of event selectors of the missing header
    ([mhpmevent3] to [mhpmevent31] lie below [CSR_MHPMEVENT3 + 32 - 3]). *)
Definition CSR_PERFORMANCE_EVENT_MAX : Z := 32.
(** Modelled from the spec: number of counters of the missing header
    ([mhpmcounter3] to [mhpmcounter31]). *)
Definition CSR_PERF_COUNTER_MAX : Z := 32.

(** Modelled from the spec: the accrued-exception bits of [fcsr] (low five
    bits: NV, DZ, OF, UF, NX) of the missing header. *)
Definition CSR_FCSR_NX : Z := 0x01.
(** Modelled from the spec: [fcsr.UF] of the missing header. *)
Definition CSR_FCSR_UF : Z := 0x02.
(** Modelled from the spec: [fcsr.OF] of the missing header. *)
Definition CSR_FCSR_OF : Z := 0x04.
(** Modelled from the spec: [fcsr.DZ] of the missing header. *)
Definition CSR_FCSR_DZ : Z := 0x08.
(** Modelled from the spec: [fcsr.NV] of the missing header. *)
Definition CSR_FCSR_NV : Z := 0x10.
(** Modelled from the spec: mask of [fcsr.flags] of the missing header. *)
Definition CSR_FCSR_FLAGS : Z := 0x1F.

(** Modelled from the spec: [misa] for a 32-bit IMAFD hart, the value the
    constructor composes from the [ISA_*] bits of the missing header. *)
Definition MISA_VALUE : Z :=
  Z.lor (Z.shiftl 1 30)
    (Z.lor (Z.shiftl 1 0) (Z.lor (Z.shiftl 1 3)
       (Z.lor (Z.shiftl 1 5) (Z.lor (Z.shiftl 1 8) (Z.shiftl 1 12))))).

(** Modelled from the spec: rounding-mode field values of
    [RVInstruction] (missing [RV32I.hpp]), as the F extension numbers them. *)
Definition RM_ROUND_TO_NEAREST_TIES_EVEN : Z := 0.
(** Modelled from the spec: rounding mode RTZ of the missing header. *)
Definition RM_ROUND_TO_ZERO : Z := 1.
(** Modelled from the spec: rounding mode RDN of the missing header. *)
Definition RM_ROUND_DOWN : Z := 2.
(** Modelled from the spec: rounding mode RUP of the missing header. *)
Definition RM_ROUND_UP : Z := 3.
(** Modelled from the spec: rounding mode RMM of the missing header. *)
Definition RM_ROUND_TO_NEAREST_TIES_MAX_MAGNITUDE : Z := 4.
(** Modelled from the spec: reserved rounding mode 5 of the missing header. *)
Definition RM_INVALID0 : Z := 5.
(** Modelled from the spec: reserved rounding mode 6 of the missing header. *)
Definition RM_INVALID1 : Z := 6.
(** Modelled from the spec: dynamic rounding mode of the missing header. *)
Definition RM_DYNAMIC : Z := 7.

(** The canonical NaN constants of [VirtualMachine::Step]. *)
Definition RV_F32_NAN : Z := 0xffffffff7fc00000.
Definition RV_F32_QNAN : Z := 0xffffffffffc00000.
Definition RV_F64_NAN : Z := 0x7ff0000000000000.
Definition RV_F64_QNAN : Z := 0xfff0000000000000.

(** ** Page-table entries

    Modelled from the spec: [TLBEntry] of the missing header is the Sv32
    page-table entry: V, R, W, X, U, G, A, D in bits 0 to 7, two software
    bits, [PPN_0] in bits 10 to 19 and [PPN_1] in bits 20 to 31; [PPN] is
    the two PPN fields read as one 22-bit number. *)
Module TLBEntry.
(** Modelled from the spec: valid bit of the missing [TLBEntry]. *)
Definition V (raw : Z) : bool := Z.testbit raw 0.
(** Modelled from the spec: read bit of the missing [TLBEntry]. *)
Definition R (raw : Z) : bool := Z.testbit raw 1.
(** Modelled from the spec: write bit of the missing [TLBEntry]. *)
Definition W (raw : Z) : bool := Z.testbit raw 2.
(** Modelled from the spec: execute bit of the missing [TLBEntry]. *)
Definition X (raw : Z) : bool := Z.testbit raw 3.
(** Modelled from the spec: accessed bit of the missing [TLBEntry]. *)
Definition A (raw : Z) : bool := Z.testbit raw 6.
(** Modelled from the spec: dirty bit of the missing [TLBEntry]. *)
Definition D (raw : Z) : bool := Z.testbit raw 7.
(** Modelled from the spec: low PPN field of the missing [TLBEntry]. *)
Definition PPN_0 (raw : Z) : Z := bits 10 10 raw.
(** Modelled from the spec: high PPN field of the missing [TLBEntry]. *)
Definition PPN_1 (raw : Z) : Z := bits 20 12 raw.
(** Modelled from the spec: whole PPN of the missing [TLBEntry]. *)
Definition PPN (raw : Z) : Z := bits 10 22 raw.
(** Modelled from the spec: [IsLeaf] of the missing [TLBEntry]; a leaf
    has R, W or X set. *)
Definition IsLeaf (raw : Z) : bool := R raw || W raw || X raw.
End TLBEntry.

(** ** The hart *)

Section Core.

Context {Memory FEnv : Type} `{!MemoryBus Memory} `{!HostFP FEnv}.

(** The members of [VirtualMachine] that [Setup], the constructor and
    [Step] read or write.  [memory] stands for the referenced bus, [fenv]
    for the host's floating-point environment, [time] for
    [csr_mapped_memory->time]. *)
Record VM := mkVM {
  regs : vec Z 32;
  fregs : vec Float 32;
  pc : Z;
  csrs : gmap Z Z;
  privilege_level : PrivilegeLevel;
  cycles : Z;
  memory : Memory;
  fenv : FEnv;
  running : bool;
  break_points : gset Z;
  ticks : Z;
  time : Z
}.

Definition with_regs (x : vec Z 32) (s : VM) : VM :=
  mkVM x (fregs s) (pc s) (csrs s) (privilege_level s) (cycles s) (memory s)
       (fenv s) (running s) (break_points s) (ticks s) (time s).
Definition with_fregs (x : vec Float 32) (s : VM) : VM :=
  mkVM (regs s) x (pc s) (csrs s) (privilege_level s) (cycles s) (memory s)
       (fenv s) (running s) (break_points s) (ticks s) (time s).
Definition with_pc (x : Z) (s : VM) : VM :=
  mkVM (regs s) (fregs s) x (csrs s) (privilege_level s) (cycles s) (memory s)
       (fenv s) (running s) (break_points s) (ticks s) (time s).
Definition with_csrs (x : gmap Z Z) (s : VM) : VM :=
  mkVM (regs s) (fregs s) (pc s) x (privilege_level s) (cycles s) (memory s)
       (fenv s) (running s) (break_points s) (ticks s) (time s).
Definition with_privilege_level (x : PrivilegeLevel) (s : VM) : VM :=
  mkVM (regs s) (fregs s) (pc s) (csrs s) x (cycles s) (memory s)
       (fenv s) (running s) (break_points s) (ticks s) (time s).
Definition with_cycles (x : Z) (s : VM) : VM :=
  mkVM (regs s) (fregs s) (pc s) (csrs s) (privilege_level s) x (memory s)
       (fenv s) (running s) (break_points s) (ticks s) (time s).
Definition with_memory (x : Memory) (s : VM) : VM :=
  mkVM (regs s) (fregs s) (pc s) (csrs s) (privilege_level s) (cycles s) x
       (fenv s) (running s) (break_points s) (ticks s) (time s).
Definition with_fenv (x : FEnv) (s : VM) : VM :=
  mkVM (regs s) (fregs s) (pc s) (csrs s) (privilege_level s) (cycles s)
       (memory s) x (running s) (break_points s) (ticks s) (time s).
Definition with_ticks (x : Z) (s : VM) : VM :=
  mkVM (regs s) (fregs s) (pc s) (csrs s) (privilege_level s) (cycles s)
       (memory s) (fenv s) (running s) (break_points s) x (time s).

(** *** The monad of member functions

    A member function is a function of the object's state; when it throws,
    the state is the one reached at the [throw]. *)
Definition M (A : Type) : Type := VM → outcome A * VM.

Definition ret {A} (a : A) : M A := λ s, (Done a, s).

Definition bind {A B} (m : M A) (k : A → M B) : M B := λ s,
  match m s with
  | (Done a, s') => k a s'
  | (Throw e, s') => (Throw e, s')
  | (Undefined, s') => (Undefined, s')
  end.

Definition throw {A} (e : fault) : M A := λ s, (Throw e, s).
Definition undefined {A} : M A := λ s, (Undefined, s).
Definition gets {A} (f : VM → A) : M A := λ s, (Done (f s), s).
Definition modify (f : VM → VM) : M unit := λ s, (Done tt, f s).

End Core.

Arguments VM : clear implicits.
Arguments M : clear implicits.

Notation "x <- m ;; k" := (bind m (λ x, k))
  (at level 20, m at level 99, k at level 200, only parsing).
Notation "m ;; k" := (bind m (λ _, k))
  (at level 100, k at level 200, right associativity, only parsing).

Section Machine.

Context {Memory FEnv : Type}.
Context `{!MemoryBus Memory} `{!HostFP FEnv} `{!Externals Memory}.

Local Abbreviation VM := (VM Memory FEnv).
Local Abbreviation M := (M Memory FEnv).

(** *** Register and CSR accesses *)

Definition reg (r : lane) : M Z := gets (λ s, regs s !!! r).
Definition freg (r : lane) : M Float := gets (λ s, fregs s !!! r).

(** [regs[r] = v]: the assignment converts to [uint32_t]. *)
Definition set_reg (r : lane) (v : Z) : M unit :=
  modify (λ s, with_regs (vinsert r (wrap32 v) (regs s)) s).
Definition set_freg (r : lane) (v : Float) : M unit :=
  modify (λ s, with_fregs (vinsert r v (fregs s)) s).
Definition set_pc (v : Z) : M unit := modify (with_pc (wrap32 v)).

(** [csrs[k]] of [std::unordered_map]: a missing key is inserted with
    value 0 before it is read. *)
Definition csrs_index (k : Z) : M Z := λ s,
  match csrs s !! k with
  | Some v => (Done v, s)
  | None => (Done 0, with_csrs (<[k := 0]> (csrs s)) s)
  end.

(** [csrs[k] = v]. *)
Definition csrs_assign (k v : Z) : M unit :=
  modify (λ s, with_csrs (<[k := wrap32 v]> (csrs s)) s).

Definition CSRPrivilegeCheck (csr : Z) : M bool := gets (λ s,
  if (csr <? 4) || ((0xc00 <=? csr) && (csr <? 0xcf0)) then true
  else if ((0x100 <=? csr) && (csr <? 0x121)) || (csr =? CSR_SCONTEXT) then
    match privilege_level s with User => false | _ => true end
  else
    match privilege_level s with Machine => true | _ => false end).

Definition ReadCSR (csr : Z) (is_internal_read : bool) : M Z :=
  allowed <- CSRPrivilegeCheck csr ;;
  if negb is_internal_read && negb allowed then throw E_CSRReadPrivilege
  else
    present <- gets (λ s, csrs s !! csr) ;;
    match present with
    | None => throw E_ReadInvalidCSR
    | Some stored =>
      if (CSR_MHPMEVENT3 <=? csr)
         && (csr <? CSR_MHPMEVENT3 + CSR_PERFORMANCE_EVENT_MAX - 3)
      then ret 0
      else if (CSR_MHPMCOUNTER3 <=? csr)
              && (csr <? CSR_MHPMCOUNTER3 + CSR_PERF_COUNTER_MAX - 3)
      then ret 0
      else if (CSR_MHPMCOUNTER3H <=? csr)
              && (csr <? CSR_MHPMCOUNTER3H + CSR_PERF_COUNTER_MAX - 3)
      then ret 0
      else if (csr =? CSR_MCYCLE) || (csr =? CSR_CYCLE)
      then gets (λ s, wrap32 (cycles s))
      else if (csr =? CSR_MCYCLEH) || (csr =? CSR_CYCLEH)
      then gets (λ s, wrap32 (Z.shiftr (cycles s) 32))
      else if csr =? CSR_TIME
      then gets (λ s, wrap32 (time s))
      else if csr =? CSR_TIMEH
      then gets (λ s, wrap32 (Z.shiftr (time s) 32))
      else ret stored
    end.

Definition WriteCSR (csr value : Z) : M unit :=
  allowed <- CSRPrivilegeCheck csr ;;
  if negb allowed then throw E_CSRWritePrivilege
  else
    present <- gets (λ s, csrs s !! csr) ;;
    match present with
    | None => throw E_WriteInvalidCSR
    | Some _ =>
      if (csr =? CSR_MVENDORID) || (csr =? CSR_MARCHID) || (csr =? CSR_MIMPID)
         || (csr =? CSR_MHARTID) || (csr =? CSR_MISA) || (csr =? CSR_MINSTRET)
         || (csr =? CSR_MINSTRETH) || (csr =? CSR_CYCLE) || (csr =? CSR_CYCLEH)
         || (csr =? CSR_TIME) || (csr =? CSR_TIMEH)
      then ret tt
      else csrs_assign csr value
    end.

(** *** Floating-point environment *)

Definition ChangeRoundingMode_fixed (rm : Z) : M bool :=
  if rm =? RM_ROUND_TO_NEAREST_TIES_EVEN then
    modify (λ s, with_fenv (fesetround FE_TONEAREST (fenv s)) s) ;; ret true
  else if rm =? RM_ROUND_TO_ZERO then
    modify (λ s, with_fenv (fesetround FE_TOWARDZERO (fenv s)) s) ;; ret true
  else if rm =? RM_ROUND_DOWN then
    modify (λ s, with_fenv (fesetround FE_DOWNWARD (fenv s)) s) ;; ret true
  else if rm =? RM_ROUND_UP then
    modify (λ s, with_fenv (fesetround FE_UPWARD (fenv s)) s) ;; ret true
  else if (rm =? RM_ROUND_TO_NEAREST_TIES_MAX_MAGNITUDE)
          || (rm =? RM_INVALID0) || (rm =? RM_INVALID1) then
    ret false
  else
    modify (λ s, with_fenv (fesetround default_rounding_mode (fenv s)) s) ;;
    ret true.

(** [RM_DYNAMIC] calls the function again on bits 7:5 of [fcsr]; when
    those bits are [RM_DYNAMIC] themselves the recursion does not end. *)
Definition ChangeRoundingMode (rm : Z) : M bool :=
  if rm =? RM_DYNAMIC then
    fcsr <- csrs_index CSR_FCSR ;;
    let rm' := Z.land (Z.shiftr fcsr 5) 7 in
    if rm' =? RM_DYNAMIC then undefined else ChangeRoundingMode_fixed rm'
  else ChangeRoundingMode_fixed rm.

(** [csrs[CSR_FCSR] |= flag]. *)
Definition fcsr_or (flag : Z) : M unit :=
  fcsr <- csrs_index CSR_FCSR ;; csrs_assign CSR_FCSR (Z.lor fcsr flag).

Definition CheckFloatErrors : M bool :=
  except <- gets (λ s, fegetexceptflag (fenv s)) ;;
  fcsr <- csrs_index CSR_FCSR ;;
  csrs_assign CSR_FCSR (Z.land fcsr (wrap32 (Z.lnot CSR_FCSR_FLAGS))) ;;
  (if nonzero (Z.land except FE_DIVBYZERO) then fcsr_or CSR_FCSR_DZ else ret tt) ;;
  (if nonzero (Z.land except FE_INEXACT) then fcsr_or CSR_FCSR_NX else ret tt) ;;
  (if nonzero (Z.land except FE_INVALID) then fcsr_or CSR_FCSR_NV else ret tt) ;;
  (if nonzero (Z.land except FE_OVERFLOW) then fcsr_or CSR_FCSR_OF else ret tt) ;;
  (if nonzero (Z.land except FE_UNDERFLOW) then fcsr_or CSR_FCSR_UF else ret tt) ;;
  ret (nonzero (Z.land except (Z.lor FE_DIVBYZERO FE_INVALID))).

Definition SetFloatFlags (invalid_op div_by_zero overflow underflow inexact : bool)
  : M unit :=
  (if invalid_op then fcsr_or CSR_FCSR_NV else ret tt) ;;
  (if div_by_zero then fcsr_or CSR_FCSR_DZ else ret tt) ;;
  (if overflow then fcsr_or CSR_FCSR_OF else ret tt) ;;
  (if underflow then fcsr_or CSR_FCSR_UF else ret tt) ;;
  (if inexact then fcsr_or CSR_FCSR_NX else ret tt).

(** An expression evaluated by the host FPU. *)
Definition host (e : fexpr) (args : list Z) : M Z := λ s,
  let '(r, env) := host_eval e args (fenv s) in (Done r, with_fenv env s).

(** *** Memory bus *)

Definition bus_read (op : Z → Memory → option Z) (addr : Z) : M Z := λ s,
  match op (wrap32 addr) (memory s) with
  | Some v => (Done v, s)
  | None => (Throw E_Memory, s)
  end.

Definition bus_write (op : Z → Z → Memory → option Memory) (addr v : Z)
  : M unit := λ s,
  match op (wrap32 addr) v (memory s) with
  | Some m => (Done tt, with_memory m s)
  | None => (Throw E_Memory, s)
  end.

Definition bus_atomic {A} (op : Memory → option (A * Memory)) : M A := λ s,
  match op (memory s) with
  | Some (a, m) => (Done a, with_memory m s)
  | None => (Throw E_Memory, s)
  end.

(** *** Sv32 translation *)

Definition PAGE_SIZE : Z := 0x1000.

(** The lambda [ReadTLBEntry] of [TranslateMemoryAddress]. *)
Definition ReadTLBEntry (address : Z) : M Z :=
  ppn_read <- gets (λ s, PeekWord (wrap32 address) (memory s)) ;;
  match ppn_read with
  | None => throw E_PPNAccessFault
  | Some raw =>
    let ppn := wrap32 raw in
    if negb (TLBEntry.V ppn) || (negb (TLBEntry.R ppn) && TLBEntry.W ppn)
    then throw E_PPNPageFault
    else ret ppn
  end.

Definition TranslateMemoryAddress (address : Z) (is_write : bool) : M Z :=
  let offset := bits 0 12 address in
  let vpn_0 := bits 12 10 address in
  let vpn_1 := bits 22 10 address in
  satp <- gets (λ s, csrs s !! CSR_SATP) ;;
  match satp with
  | None => throw E_OutOfRange
  | Some satp =>
    let root_table_address := wrap32 (Z.shiftl satp 12) in
    ppn_1 <- ReadTLBEntry (root_table_address + vpn_1 * 4) ;;
    walk <-
      (if TLBEntry.IsLeaf ppn_1 then ret (ppn_1, true)
       else
         leaf <- ReadTLBEntry (TLBEntry.PPN ppn_1 * PAGE_SIZE + vpn_0 * 4) ;;
         if negb (TLBEntry.IsLeaf leaf) then throw E_PPNPageFault
         else ret (leaf, false)) ;;
    let '(leaf, super) := walk in
    if super && negb (TLBEntry.PPN_0 leaf =? 0) then throw E_PPNPageFault
    else if negb (TLBEntry.A leaf) || (TLBEntry.D leaf && is_write)
    then throw E_PageFault
    else if super then
      ret (Z.lor (Z.lor (wrap32 (Z.shiftl (TLBEntry.PPN_1 leaf) 22))
                        (Z.shiftl vpn_0 12)) offset)
    else
      ret (Z.lor (wrap32 (Z.shiftl (TLBEntry.PPN leaf) 12)) offset)
  end.

(** [CheckMemoryAccess] grants everything and translates to the address
    itself; only the two members the step loop reads are kept. *)
Record MemoryAccess := { address_present : bool; translated_address : Z }.

Definition CheckMemoryAccess (address : Z) : MemoryAccess :=
  {| address_present := true; translated_address := address |}.

(** *** Helpers of [Step] *)

Definition InvalidInstruction {A} : M A :=
  pc0 <- gets pc ;;
  _ <- bus_read ReadWord pc0 ;;
  throw E_InvalidInstruction.

Definition ToFloat (value : Z) : Float :=
  set_is_double false (set_u32 value Float_default).
Definition ToDouble (value : Z) : Float := set_u64 value Float_default.
Definition ToUInt32 (value : Float) : Z := u32 value.
Definition ToUInt64 (value : Float) : Z := wrap64 (u64 value).

(** The six out-parameters of [ClassF32] and [ClassF64]. *)
Record FClass := mkFClass {
  is_inf : bool; is_nan : bool; is_qnan : bool;
  is_subnormal : bool; is_zero : bool; is_neg : bool
}.

Definition ClassF32 (value : Float) : FClass :=
  let sign := wrap8 (Z.shiftr (u32 value) 31) in
  let exp := Z.land (Z.shiftr (u32 value) 23) 0xff in
  let frac := Z.land (u32 value) 0x7fffff in
  {| is_inf := (exp =? 0xff) && (frac =? 0);
     is_nan := (exp =? 0xff) && negb (frac =? 0)
               && negb (nonzero (Z.land frac 0x400000));
     is_qnan := (exp =? 0xff) && nonzero (Z.land frac 0x400000);
     is_subnormal := (exp =? 0) && negb (frac =? 0);
     is_zero := (exp =? 0) && (frac =? 0);
     is_neg := negb (sign =? 0) |}.

Definition ClassF64 (value : Float) : FClass :=
  let sign := wrap8 (Z.shiftr (wrap64 (u64 value)) 63) in
  let exp := Z.land (Z.shiftr (wrap64 (u64 value)) 52) 0x7ff in
  let frac := Z.land (wrap64 (u64 value)) 0xfffffffffffff in
  {| is_inf := (exp =? 0x7ff) && (frac =? 0);
     is_nan := (exp =? 0x7ff) && negb (frac =? 0)
               && negb (nonzero (Z.land frac 0x8000000000000));
     is_qnan := (exp =? 0x7ff) && nonzero (Z.land frac 0x8000000000000);
     is_subnormal := (exp =? 0) && negb (frac =? 0);
     is_zero := (exp =? 0) && (frac =? 0);
     is_neg := negb (sign =? 0) |}.

(** The single- and double-precision cases of [Step] differ in the view of
    the lane ([f] or [d]), the classifier and the NaN constant. *)
Definition Class (w : fwidth) : Float → FClass :=
  match w with W32 => ClassF32 | W64 => ClassF64 end.
Definition fval (w : fwidth) (v : Float) : Z :=
  match w with W32 => u32 v | W64 => wrap64 (u64 v) end.
Definition set_fval (w : fwidth) (x : Z) (v : Float) : Float :=
  match w with W32 => set_u32 x v | W64 => set_u64 x v end.
Definition RV_NAN (w : fwidth) : Z :=
  match w with W32 => RV_F32_NAN | W64 => RV_F64_NAN end.

(** [fregs[r].member = ...]: one member of the lane is assigned. *)
Definition freg_update (r : lane) (f : Float → Float) : M unit :=
  modify (λ s, with_fregs (vinsert r (f (fregs s !!! r)) (fregs s)) s).

Definition require_rounding_mode (instr : RVInstruction) : M unit :=
  ok <- ChangeRoundingMode (rm instr) ;;
  if ok then ret tt else InvalidInstruction.

(** [auto value = regs[rs1] >> amount; uint32_t sign = -1U << amount;
    if (regs[rs1] & (1U << (32 - amount))) value |= sign;] of SRAI and SRA.
    For [amount = 0] the test shifts a 32-bit integer by 32. *)
Definition sra_value (x amount : Z) : option Z :=
  let value := Z.shiftr x amount in
  let sign := wrap32 (Z.shiftl (2 ^ 32 - 1) amount) in
  if 32 - amount <? 32 then
    Some (if nonzero (Z.land x (wrap32 (Z.shiftl 1 (32 - amount))))
          then Z.lor value sign else value)
  else None.

Definition exec_sra (instr : RVInstruction) (amount : Z) : M unit :=
  x <- reg (rs1 instr) ;;
  match sra_value x amount with
  | Some value => set_reg (rd instr) value
  | None => undefined
  end.

Definition as_int64 (x : Z) : Z :=
  if wrap64 x <? 2 ^ 63 then wrap64 x else wrap64 x - 2 ^ 64.

Definition INT32_MIN : Z := - 2 ^ 31.

(** DIV and REM: [lhs / rhs] and [lhs % rhs] on [int32_t] truncate toward
    zero; [INT_MIN / -1] overflows. *)
Definition exec_div_signed (op : Z → Z → Z) (instr : RVInstruction) : M unit :=
  a <- reg (rs1 instr) ;;
  b <- reg (rs2 instr) ;;
  let lhs := AsSigned a in
  let rhs := AsSigned b in
  if rhs =? 0 then throw E_DivByZero
  else if (lhs =? INT32_MIN) && (rhs =? -1) then undefined
  else set_reg (rd instr) (AsUnsigned (op lhs rhs)).

Definition exec_div_unsigned (op : Z → Z → Z) (instr : RVInstruction) : M unit :=
  lhs <- reg (rs1 instr) ;;
  rhs <- reg (rs2 instr) ;;
  if rhs =? 0 then throw E_DivByZero
  else set_reg (rd instr) (op lhs rhs).

Definition exec_branch (taken : Z → Z → bool) (instr : RVInstruction) : M unit :=
  a <- reg (rs1 instr) ;;
  b <- reg (rs2 instr) ;;
  pc0 <- gets pc ;;
  if taken a b then set_pc (pc0 + immediate instr) else set_pc (pc0 + 4).

Definition exec_load (op : Z → Memory → option Z) (ext : Z → Z)
    (instr : RVInstruction) : M unit :=
  base <- reg (rs1 instr) ;;
  v <- bus_read op (base + immediate instr) ;;
  set_reg (rd instr) (ext v).

Definition exec_store (op : Z → Z → Memory → option Memory)
    (instr : RVInstruction) : M unit :=
  base <- reg (rs1 instr) ;;
  v <- reg (rs2 instr) ;;
  bus_write op (base + immediate instr) v.

Definition exec_amo (op : Z → Z → Memory → option (Z * Memory))
    (instr : RVInstruction) : M unit :=
  addr <- reg (rs1 instr) ;;
  v <- reg (rs2 instr) ;;
  old <- bus_atomic (op addr v) ;;
  set_reg (rd instr) old.

(** CSRRS, CSRRC: the write is skipped when the [rs1] field is zero. *)
Definition exec_csr_reg (combine : Z → Z → Z) (instr : RVInstruction) : M unit :=
  value <- reg (rs1 instr) ;;
  (if decide (rd instr = REG_ZERO) then ret tt
   else old <- ReadCSR (immediate instr) false ;; set_reg (rd instr) old) ;;
  if decide (rs1 instr = REG_ZERO) then ret tt
  else
    cur <- ReadCSR (immediate instr) true ;;
    WriteCSR (immediate instr) (combine cur value).

(** CSRRSI, CSRRCI: the value is the [rs1] field itself. *)
Definition exec_csr_imm (combine : Z → Z → Z) (instr : RVInstruction) : M unit :=
  let value := idx (rs1 instr) in
  (if decide (rd instr = REG_ZERO) then ret tt
   else old <- ReadCSR (immediate instr) false ;; set_reg (rd instr) old) ;;
  cur <- ReadCSR (immediate instr) true ;;
  WriteCSR (immediate instr) (combine cur value).

(** CSRRW, CSRRWI. *)
Definition exec_csr_write (value : M Z) (instr : RVInstruction) : M unit :=
  value <- value ;;
  (if decide (rd instr = REG_ZERO) then ret tt
   else old <- ReadCSR (immediate instr) false ;; set_reg (rd instr) old) ;;
  WriteCSR (immediate instr) value.

Definition csr_set (cur value : Z) : Z := Z.lor cur value.
Definition csr_clear (cur value : Z) : Z := Z.land cur (wrap32 (Z.lnot value)).

(** A registered handler runs on the bus and the two register files. *)
Definition call_handler (handler : ECallHandler Memory) (hart : Z) : M unit := λ s,
  match handler hart (memory s) (regs s) (fregs s) with
  | (r, (m, x, f)) =>
    let s' := with_fregs f (with_regs x (with_memory m s)) in
    match r with
    | Done _ => (Done tt, s')
    | Throw _ => (Throw E_Handler, s')
    | Undefined => (Undefined, s')
    end
  end.

Definition exec_ecall : M unit :=
  a0 <- reg REG_A0 ;;
  hart <- csrs_index CSR_MHARTID ;;
  match ecall_handlers !! a0 with
  | None => throw E_UnknownECall
  | Some handler => call_handler handler hart
  end.

(** *** Floating-point cases *)

Definition sign_bit (w : fwidth) : Z :=
  match w with W32 => 2 ^ 31 | W64 => 2 ^ 63 end.
Definition wrapw (w : fwidth) : Z → Z :=
  match w with W32 => wrap32 | W64 => wrap64 end.

Definition sgnj (w : fwidth) (x y : Z) : Z :=
  Z.lor (Z.land x (wrapw w (Z.lnot (sign_bit w)))) (Z.land y (sign_bit w)).
Definition sgnjn (w : fwidth) (x y : Z) : Z :=
  Z.lor (Z.land x (wrapw w (Z.lnot (sign_bit w))))
        (Z.land (wrapw w (Z.lnot y)) (sign_bit w)).
Definition sgnjx (w : fwidth) (x y : Z) : Z :=
  Z.lxor x (Z.land y (sign_bit w)).

(** FMADD, FMSUB, FNMSUB, FNMADD. *)
Definition exec_fused (w : fwidth) (e : fexpr) (instr : RVInstruction) : M unit :=
  require_rounding_mode instr ;;
  a <- freg (rs1 instr) ;;
  b <- freg (rs2 instr) ;;
  c <- freg (rs3 instr) ;;
  if is_inf (Class w a) && is_zero (Class w b) then InvalidInstruction
  else
    result <- host e [fval w a; fval w b; fval w c] ;;
    err <- CheckFloatErrors ;;
    if err then freg_update (rd instr) (set_u64 (RV_NAN w))
    else freg_update (rd instr) (set_fval w result).

(** FADD, FSUB, FMUL, FDIV. *)
Definition exec_arith (w : fwidth) (e : fexpr) (instr : RVInstruction) : M unit :=
  require_rounding_mode instr ;;
  a <- freg (rs1 instr) ;;
  b <- freg (rs2 instr) ;;
  result <- host e [fval w a; fval w b] ;;
  err <- CheckFloatErrors ;;
  if err then freg_update (rd instr) (set_u64 (RV_NAN w))
  else freg_update (rd instr) (set_fval w result).

Definition exec_sqrt (w : fwidth) (instr : RVInstruction) : M unit :=
  require_rounding_mode instr ;;
  a <- freg (rs1 instr) ;;
  let c := Class w a in
  if is_inf c || is_nan c || is_qnan c || is_neg c
  then freg_update (rd instr) (set_u64 (RV_NAN w))
  else
    r <- host (X_sqrt w) [fval w a] ;;
    freg_update (rd instr) (set_fval w r).

Definition exec_sgnj (w : fwidth) (op : Z → Z → Z) (instr : RVInstruction)
  : M unit :=
  result <- freg (rs1 instr) ;;
  rhs <- freg (rs2 instr) ;;
  set_freg (rd instr) (set_fval w (op (fval w result) (fval w rhs)) result).

Definition exec_minmax (w : fwidth) (is_min : bool) (instr : RVInstruction)
  : M unit :=
  a <- freg (rs1 instr) ;;
  b <- freg (rs2 instr) ;;
  let lhs_nan := is_nan (Class w a) || is_qnan (Class w a) in
  let rhs_nan := is_nan (Class w b) || is_qnan (Class w b) in
  let lhs_neg := is_neg (Class w a) in
  let rhs_neg := is_neg (Class w b) in
  if lhs_nan && rhs_nan then
    SetFloatFlags true false false false false ;;
    freg_update (rd instr) (set_u64 (RV_NAN w))
  else
    lhs_less <-
      (if lhs_nan then SetFloatFlags true false false false false ;; ret false
       else if rhs_nan then SetFloatFlags true false false false false ;; ret true
       else if lhs_neg && negb rhs_neg then ret true
       else if negb lhs_neg && rhs_neg then ret false
       else lt <- host (X_lt w) [fval w a; fval w b] ;; ret (nonzero lt)) ;;
    if (if is_min then lhs_less else negb lhs_less)
    then set_freg (rd instr) a
    else set_freg (rd instr) b.

(** FCVT.W and FCVT.WU.  In the infinity branch the source compares the
    operand with zero: an infinity is below zero exactly when its sign bit
    is set. *)
Definition exec_cvt_to_int (w : fwidth) (neg_inf_result other_result : Z)
    (conv differs : fexpr) (instr : RVInstruction) : M unit :=
  require_rounding_mode instr ;;
  a <- freg (rs1 instr) ;;
  let c := Class w a in
  if is_inf c then
    let result := if is_neg c then neg_inf_result else other_result in
    SetFloatFlags false false false false true ;;
    set_reg (rd instr) result
  else if is_nan c || is_qnan c then
    SetFloatFlags false false false false true ;;
    set_reg (rd instr) other_result
  else
    val <- host conv [fval w a] ;;
    ne <- host differs [val; fval w a] ;;
    (if nonzero ne then SetFloatFlags false false false false true else ret tt) ;;
    set_reg (rd instr) val.

Definition exec_cvt_from_int (w : fwidth) (view : Z → Z) (conv differs : fexpr)
    (instr : RVInstruction) : M unit :=
  x <- reg (rs1 instr) ;;
  let val := view x in
  r <- host conv [val] ;;
  freg_update (rd instr) (set_fval w r) ;;
  now <- freg (rd instr) ;;
  ne <- host differs [val; fval w now] ;;
  if nonzero ne then SetFloatFlags true false false false false else ret tt.

Definition exec_feq (w : fwidth) (instr : RVInstruction) : M unit :=
  require_rounding_mode instr ;;
  lhs <- freg (rs1 instr) ;;
  rhs <- freg (rs2 instr) ;;
  let lhs_nan := is_nan (Class w lhs) in
  let rhs_nan := is_nan (Class w rhs) in
  (if lhs_nan || rhs_nan then SetFloatFlags true false false false false
   else ret tt) ;;
  if lhs_nan || rhs_nan || is_qnan (Class w lhs) || is_qnan (Class w rhs)
  then set_reg (rd instr) 0
  else
    r <- host (X_eq w) [fval w lhs; fval w rhs] ;;
    set_reg (rd instr) (if nonzero r then 1 else 0).

(** FLT, FLE. *)
Definition exec_fcmp (w : fwidth) (e : fexpr) (instr : RVInstruction) : M unit :=
  require_rounding_mode instr ;;
  lhs <- freg (rs1 instr) ;;
  rhs <- freg (rs2 instr) ;;
  if is_nan (Class w lhs) || is_nan (Class w rhs)
     || is_qnan (Class w lhs) || is_qnan (Class w rhs)
  then
    SetFloatFlags true false false false false ;;
    set_reg (rd instr) 0
  else
    r <- host e [fval w lhs; fval w rhs] ;;
    set_reg (rd instr) (if nonzero r then 1 else 0).

(** [if (cond) result |= 1 << k;] *)
Definition or_bit (cond : bool) (k : Z) (result : Z) : Z :=
  if cond then Z.lor result (Z.shiftl 1 k) else result.

Definition fclass_mask (c : FClass) : Z :=
  let result := 0 in
  let result := or_bit (is_inf c && is_neg c) 0 result in
  let result := or_bit (negb (is_subnormal c) && is_neg c) 1 result in
  let result := or_bit (is_subnormal c && is_neg c) 2 result in
  let result := or_bit (is_zero c && is_neg c) 3 result in
  let result := or_bit (is_zero c && negb (is_neg c)) 4 result in
  let result := or_bit (is_subnormal c && negb (is_neg c)) 5 result in
  let result := or_bit (negb (is_subnormal c) && negb (is_nan c)) 6 result in
  let result := or_bit (is_inf c && negb (is_neg c)) 7 result in
  let result := or_bit (is_nan c) 8 result in
  let result := or_bit (is_qnan c) 9 result in
  result.

Definition exec_fclass (w : fwidth) (instr : RVInstruction) : M unit :=
  require_rounding_mode instr ;;
  a <- freg (rs1 instr) ;;
  set_reg (rd instr) (fclass_mask (Class w a)).

Definition exec_fcvt_s_d (instr : RVInstruction) : M unit :=
  require_rounding_mode instr ;;
  a <- freg (rs1 instr) ;;
  if is_nan (ClassF64 a) then freg_update (rd instr) (set_u64 RV_F32_NAN)
  else if is_qnan (ClassF64 a) then freg_update (rd instr) (set_u64 RV_F32_QNAN)
  else
    let val := fval W64 a in
    freg_update (rd instr) (set_u64 0) ;;
    r <- host X_narrow [val] ;;
    freg_update (rd instr) (set_u32 r).

Definition exec_fcvt_d_s (instr : RVInstruction) : M unit :=
  a <- freg (rs1 instr) ;;
  if is_nan (ClassF32 a) then freg_update (rd instr) (set_u64 RV_F64_NAN)
  else if is_qnan (ClassF32 a) then freg_update (rd instr) (set_u64 RV_F64_QNAN)
  else
    r <- host X_widen [fval W32 a] ;;
    freg_update (rd instr) (set_u64 r).

Definition exec_fld (instr : RVInstruction) : M unit :=
  base <- reg (rs1 instr) ;;
  let addr := wrap32 (base + immediate instr) in
  lo <- bus_read ReadWord addr ;;
  hi <- bus_read ReadWord (addr + 4) ;;
  set_freg (rd instr) (ToDouble (Z.lor lo (Z.shiftl hi 32))).

Definition exec_fsd (instr : RVInstruction) : M unit :=
  base <- reg (rs1 instr) ;;
  let addr := wrap32 (base + immediate instr) in
  v <- freg (rs2 instr) ;;
  let val := ToUInt64 v in
  bus_write WriteWord addr (wrap32 val) ;;
  bus_write WriteWord (addr + 4) (wrap32 (Z.shiftr val 32)).

(** *** The first [switch] of the step loop *)

Definition dispatch (instr : RVInstruction) : M unit :=
  match type instr with
  | LUI => set_reg (rd instr) (immediate instr)
  | AUIPC => pc0 <- gets pc ;; set_reg (rd instr) (pc0 + immediate instr)
  | JAL =>
    pc0 <- gets pc ;;
    let next_pc := wrap32 (pc0 + 4) in
    set_pc (pc0 + immediate instr) ;;
    set_reg (rd instr) next_pc
  | JALR =>
    pc0 <- gets pc ;;
    let next_pc := wrap32 (pc0 + 4) in
    base <- reg (rs1 instr) ;;
    set_pc (Z.land (wrap32 (base + immediate instr)) 0xfffffffe) ;;
    set_reg (rd instr) next_pc
  | BEQ => exec_branch (λ a b, a =? b) instr
  | BNE => exec_branch (λ a b, negb (a =? b)) instr
  | BLT => exec_branch (λ a b, AsSigned a <? AsSigned b) instr
  | BGE => exec_branch (λ a b, AsSigned a >=? AsSigned b) instr
  | BLTU => exec_branch (λ a b, a <? b) instr
  | BGEU => exec_branch (λ a b, a >=? b) instr
  | LB => exec_load ReadByte (λ v, SignExtend v 7) instr
  | LH => exec_load ReadHalf (λ v, SignExtend v 15) instr
  | LW => exec_load ReadWord (λ v, v) instr
  | LBU => exec_load ReadByte (λ v, v) instr
  | LHU => exec_load ReadHalf (λ v, v) instr
  | SB => exec_store WriteByte instr
  | SH => exec_store WriteHalf instr
  | SW => exec_store WriteWord instr
  | ADDI => a <- reg (rs1 instr) ;; set_reg (rd instr) (a + immediate instr)
  | SLTI =>
    a <- reg (rs1 instr) ;;
    set_reg (rd instr) (if AsSigned a <? AsSigned (immediate instr) then 1 else 0)
  | SLTIU =>
    a <- reg (rs1 instr) ;;
    set_reg (rd instr) (if a <? immediate instr then 1 else 0)
  | XORI => a <- reg (rs1 instr) ;; set_reg (rd instr) (Z.lxor a (immediate instr))
  | ORI => a <- reg (rs1 instr) ;; set_reg (rd instr) (Z.lor a (immediate instr))
  | ANDI => a <- reg (rs1 instr) ;; set_reg (rd instr) (Z.land a (immediate instr))
  | SLLI =>
    let amount := idx (rs2 instr) in
    a <- reg (rs1 instr) ;; set_reg (rd instr) (Z.shiftl a amount)
  | SRLI =>
    let amount := idx (rs2 instr) in
    a <- reg (rs1 instr) ;; set_reg (rd instr) (Z.shiftr a amount)
  | SRAI => exec_sra instr (idx (rs2 instr))
  | ADD => a <- reg (rs1 instr) ;; b <- reg (rs2 instr) ;; set_reg (rd instr) (a + b)
  | SUB => a <- reg (rs1 instr) ;; b <- reg (rs2 instr) ;; set_reg (rd instr) (a - b)
  | SLL =>
    b <- reg (rs2 instr) ;;
    let amount := Z.land b 0x1f in
    a <- reg (rs1 instr) ;; set_reg (rd instr) (Z.shiftl a amount)
  | SLT =>
    a <- reg (rs1 instr) ;; b <- reg (rs2 instr) ;;
    set_reg (rd instr) (if AsSigned a <? AsSigned b then 1 else 0)
  | SLTU =>
    a <- reg (rs1 instr) ;; b <- reg (rs2 instr) ;;
    set_reg (rd instr) (if a <? b then 1 else 0)
  | XOR => a <- reg (rs1 instr) ;; b <- reg (rs2 instr) ;; set_reg (rd instr) (Z.lxor a b)
  | SRL =>
    b <- reg (rs2 instr) ;;
    let amount := Z.land b 0x1f in
    a <- reg (rs1 instr) ;; set_reg (rd instr) (Z.shiftr a amount)
  | SRA => b <- reg (rs2 instr) ;; exec_sra instr (Z.land b 0x1f)
  | OR => a <- reg (rs1 instr) ;; b <- reg (rs2 instr) ;; set_reg (rd instr) (Z.lor a b)
  | AND => a <- reg (rs1 instr) ;; b <- reg (rs2 instr) ;; set_reg (rd instr) (Z.land a b)
  | FENCE => ret tt
  | ECALL => exec_ecall
  | EBREAK => ret tt
  | CSRRW => exec_csr_write (reg (rs1 instr)) instr
  | CSRRS => exec_csr_reg csr_set instr
  | CSRRC => exec_csr_reg csr_clear instr
  | CSRRWI => exec_csr_write (ret (idx (rs1 instr))) instr
  | CSRRSI => exec_csr_imm csr_set instr
  | CSRRCI => exec_csr_imm csr_clear instr
  | MUL =>
    a <- reg (rs1 instr) ;; b <- reg (rs2 instr) ;;
    set_reg (rd instr) (AsUnsigned (AsSigned a * AsSigned b))
  | MULH =>
    a <- reg (rs1 instr) ;; b <- reg (rs2 instr) ;;
    let result := AsSigned a * AsSigned b in
    set_reg (rd instr) (AsUnsigned (Z.shiftr result 32))
  | MULHSU =>
    a <- reg (rs1 instr) ;; b <- reg (rs2 instr) ;;
    let result := as_int64 (wrap64 (AsSigned a) * b) in
    set_reg (rd instr) (AsUnsigned (Z.shiftr result 32))
  | MULHU =>
    a <- reg (rs1 instr) ;; b <- reg (rs2 instr) ;;
    let result := wrap64 (a * b) in
    set_reg (rd instr) (Z.shiftr result 32)
  | DIV => exec_div_signed Z.quot instr
  | DIVU => exec_div_unsigned Z.div instr
  | REM => exec_div_signed Z.rem instr
  | REMU => exec_div_unsigned Z.modulo instr
  | LR_W =>
    (if decide (rs2 instr = 0%fin) then ret tt else InvalidInstruction) ;;
    addr <- reg (rs1 instr) ;;
    hart <- csrs_index CSR_MHARTID ;;
    v <- bus_atomic (ReadWordReserved addr hart) ;;
    set_reg (rd instr) v
  | SC_W =>
    addr <- reg (rs1 instr) ;;
    v <- reg (rs2 instr) ;;
    hart <- csrs_index CSR_MHARTID ;;
    ok <- bus_atomic (WriteWordConditional addr v hart) ;;
    if ok : bool then set_reg (rd instr) 0 else set_reg (rd instr) 1
  | AMOSWAP_W => exec_amo AtomicSwap instr
  | AMOADD_W => exec_amo AtomicAdd instr
  | AMOXOR_W => exec_amo AtomicXor instr
  | AMOAND_W => exec_amo AtomicAnd instr
  | AMOOR_W => exec_amo AtomicOr instr
  | AMOMIN_W => exec_amo AtomicMin instr
  | AMOMAX_W => exec_amo AtomicMax instr
  | AMOMINU_W => exec_amo AtomicMinU instr
  | AMOMAXU_W => exec_amo AtomicMaxU instr
  | FLW =>
    base <- reg (rs1 instr) ;;
    v <- bus_read ReadWord (base + immediate instr) ;;
    set_freg (rd instr) (ToFloat v)
  | FSW =>
    base <- reg (rs1 instr) ;;
    v <- freg (rs2 instr) ;;
    bus_write WriteWord (base + immediate instr) (ToUInt32 v)
  | FMADD_S => exec_fused W32 (X_madd W32) instr
  | FMSUB_S => exec_fused W32 (X_msub W32) instr
  | FNMSUB_S => exec_fused W32 (X_nmsub W32) instr
  | FNMADD_S => exec_fused W32 (X_nmadd W32) instr
  | FADD_S => exec_arith W32 (X_add W32) instr
  | FSUB_S => exec_arith W32 (X_sub W32) instr
  | FMUL_S => exec_arith W32 (X_mul W32) instr
  | FDIV_S => exec_arith W32 (X_div W32) instr
  | FSQRT_S => exec_sqrt W32 instr
  | FSGNJ_S => exec_sgnj W32 (sgnj W32) instr
  | FSGNJN_S => exec_sgnj W32 (sgnjn W32) instr
  | FSGNJX_S => exec_sgnj W32 (sgnjx W32) instr
  | FMIN_S => exec_minmax W32 true instr
  | FMAX_S => exec_minmax W32 false instr
  | FCVT_W_S =>
    exec_cvt_to_int W32 (2 ^ 32 - 1) 0x7fffffff (X_to_i32 W32) (X_i32_ne W32) instr
  | FCVT_WU_S =>
    exec_cvt_to_int W32 0 (2 ^ 32 - 1) (X_to_u32 W32) (X_u32_ne W32) instr
  | FMV_X_W => v <- freg (rs1 instr) ;; set_reg (rd instr) (ToUInt32 v)
  | FEQ_S => exec_feq W32 instr
  | FLT_S => exec_fcmp W32 (X_lt W32) instr
  | FLE_S => exec_fcmp W32 (X_le W32) instr
  | FCLASS_S => exec_fclass W32 instr
  | FCVT_S_W => exec_cvt_from_int W32 AsSigned (X_of_i32 W32) (X_i32_ne W32) instr
  | FCVT_S_WU => exec_cvt_from_int W32 (λ x, x) (X_of_u32 W32) (X_u32_ne W32) instr
  | FMV_W_X =>
    freg_update (rd instr) (set_u64 0) ;;
    x <- reg (rs1 instr) ;;
    freg_update (rd instr) (set_u32 x)
  | FLD => exec_fld instr
  | FSD => exec_fsd instr
  | FMADD_D => exec_fused W64 (X_madd W64) instr
  | FMSUB_D => exec_fused W64 (X_msub W64) instr
  | FNMSUB_D => exec_fused W64 (X_nmsub W64) instr
  | FNMADD_D => exec_fused W64 (X_nmadd W64) instr
  | FADD_D => exec_arith W64 (X_add W64) instr
  | FSUB_D => exec_arith W64 (X_sub W64) instr
  | FMUL_D => exec_arith W64 (X_mul W64) instr
  | FDIV_D => exec_arith W64 (X_div W64) instr
  | FSQRT_D => exec_sqrt W64 instr
  | FSGNJ_D => exec_sgnj W64 (sgnj W64) instr
  | FSGNJN_D => exec_sgnj W64 (sgnjn W64) instr
  | FSGNJX_D => exec_sgnj W64 (sgnjx W64) instr
  | FMIN_D => exec_minmax W64 true instr
  | FMAX_D => exec_minmax W64 false instr
  | FCVT_S_D => exec_fcvt_s_d instr
  | FCVT_D_S => exec_fcvt_d_s instr
  | FEQ_D => exec_feq W64 instr
  | FLT_D => exec_fcmp W64 (X_lt W64) instr
  | FLE_D => exec_fcmp W64 (X_le W64) instr
  | FCLASS_D => exec_fclass W64 instr
  | FCVT_W_D =>
    exec_cvt_to_int W64 (2 ^ 32 - 1) 0x7fffffff (X_to_i32 W64) (X_i32_ne W64) instr
  | FCVT_WU_D =>
    exec_cvt_to_int W64 0 (2 ^ 32 - 1) (X_to_u32 W64) (X_u32_ne W64) instr
  | FCVT_D_W => exec_cvt_from_int W64 AsSigned (X_of_i32 W64) (X_i32_ne W64) instr
  | FCVT_D_WU => exec_cvt_from_int W64 (λ x, x) (X_of_u32 W64) (X_u32_ne W64) instr
  | URET | SRET | MRET | WFI
  | SFENCE_VMA | SINVAL_VMA | SINVAL_GVMA | SFENCE_W_INVAL | SFENCE_INVAL_IR =>
    throw E_NotImplemented
  | CUST_TVA =>
    a <- reg (rs1 instr) ;;
    pa <- TranslateMemoryAddress a false ;;
    set_reg (rd instr) pa
  | INVALID => InvalidInstruction
  end.

(** *** The step loop *)

Definition IsBreakPoint (addr : Z) : M bool := gets (λ s,
  if decide (addr ∈ break_points s) then true
  else
    match PeekWord addr (memory s) with
    | None => false
    | Some word =>
      match type (FromUInt32 word) with EBREAK => true | _ => false end
    end).

(** One turn of the [for] loop of [Step]; the result is [true] when the
    loop leaves through [return true]. *)
Definition iteration : M bool :=
  modify (λ s, with_cycles (wrap64 (cycles s + 1)) s) ;;
  pc0 <- gets pc ;;
  if nonzero (Z.land pc0 3) then throw E_InvalidPC
  else
    let maccess_instr := CheckMemoryAccess pc0 in
    if negb (address_present maccess_instr) then throw E_PCNotPresent
    else
      word <- bus_read ReadWord (translated_address maccess_instr) ;;
      let instr := FromUInt32 word in
      dispatch instr ;;
      (if writes_pc (type instr) then ret tt
       else pc1 <- gets pc ;; set_pc (pc1 + 4)) ;;
      (if decide (rd instr = 0%fin) then set_reg (rd instr) 0 else ret tt) ;;
      pc2 <- gets pc ;;
      IsBreakPoint pc2.

Fixpoint Step_loop (steps : nat) : M bool :=
  match steps with
  | O => ret false
  | S steps' =>
    go <- gets running ;;
    if go : bool then
      hit <- iteration ;;
      if hit : bool then ret true else Step_loop steps'
    else ret false
  end.

(** [ticks += steps] opens [Step]; the width of [ticks] is declared in the
    missing header and no wrap-around is modelled for it. *)
Definition Step (steps : Z) : M bool :=
  modify (λ s, with_ticks (ticks s + steps) s) ;;
  Step_loop (Z.to_nat steps).

(** *** Reset *)

Definition setup_csrs : list Z :=
  [CSR_FRM; CSR_CYCLE; CSR_TIME; CSR_INSTRET; CSR_CYCLEH; CSR_TIMEH;
   CSR_INSTRETH;
   CSR_SSTATUS; CSR_SIE; CSR_STVEC; CSR_SCOUNTEREN; CSR_SENVCFG; CSR_SSCRATCH;
   CSR_SEPC; CSR_SCAUSE; CSR_STVAL; CSR_SIP; CSR_SATP; CSR_SCONTEXT;
   CSR_MSTATUS].

Definition Setup (s : VM) : VM :=
  let s := with_regs (vreplicate 32 0) s in
  let s := with_fregs (vmap (λ f, set_is_double false (set_u32 0 f)) (fregs s)) s in
  let s := with_csrs (foldl (λ m k, <[k := 0]> m) (csrs s) setup_csrs) s in
  let s := with_privilege_level Machine s in
  with_cycles 0 s.

(** The constructor.  [now] is the wall-clock reading that seeds [time];
    [env] the host floating-point environment at that moment.  The members
    without an initialiser in the constructor start as the spec has them:
    stopped, no break point. *)
Definition VirtualMachine (memory : Memory) (env : FEnv) (now : Z)
    (starting_pc hart_id : Z) : VM :=
  let marchid := Z.lor (Z.lor (Z.lor (Z.shiftl 69 24) (Z.shiftl 78 16))
                              (Z.shiftl 73 8)) 72 in
  let mimpid := Z.lor (Z.lor (Z.lor (Z.shiftl 67 24) (Z.shiftl 65 16))
                             (Z.shiftl 77 8)) 86 in
  let csrs0 : gmap Z Z :=
    <[CSR_MISA := MISA_VALUE]>
      (<[CSR_MHARTID := wrap32 hart_id]>
         (<[CSR_MIMPID := mimpid]>
            (<[CSR_MARCHID := marchid]> (<[CSR_MVENDORID := 0]> ∅)))) in
  Setup {| regs := vreplicate 32 0;
           fregs := vreplicate 32 Float_default;
           pc := wrap32 starting_pc;
           csrs := csrs0;
           privilege_level := Machine;
           cycles := 0;
           memory := memory;
           fenv := env;
           running := false;
           break_points := ∅;
           ticks := 0;
           time := wrap64 now |}.

End Machine.

(** * Specification-level notions *)

(** The arithmetic right shift of a 32-bit value, as the ISA defines SRA
    and SRAI: the sign bit (bit 31) fills the vacated positions. *)
Definition asr32 (x amount : Z) : Z := wrap32 (Z.shiftr (AsSigned x) amount).

(** A 10-bit class mask with exactly one bit set. *)
Definition single_class (mask : Z) : Prop := ∃ k, 0 ≤ k < 10 ∧ mask = 2 ^ k.




(** Sv32 translation in the words of the specification: the fields are
    read off the numbers by division, the physical address is the
    concatenation of its parts, and the two kinds of failure are told
    apart. *)
Inductive sv32_result :=
| Physical (pa : Z)
| AccessFault
| PageFault.

Definition pte_flag (k : Z) (pte : Z) : bool := (pte / 2 ^ k) mod 2 =? 1.
Definition pte_V := pte_flag 0.
Definition pte_R := pte_flag 1.
Definition pte_W := pte_flag 2.
Definition pte_X := pte_flag 3.
Definition pte_A := pte_flag 6.
Definition pte_D := pte_flag 7.
Definition pte_ppn0 (pte : Z) : Z := (pte / 2 ^ 10) mod 2 ^ 10.
Definition pte_ppn1 (pte : Z) : Z := (pte / 2 ^ 20) mod 2 ^ 12.
Definition pte_ppn (pte : Z) : Z := (pte / 2 ^ 10) mod 2 ^ 22.
Definition pte_invalid (pte : Z) : bool :=
  negb (pte_V pte) || (negb (pte_R pte) && pte_W pte).
Definition pte_leaf (pte : Z) : bool := pte_R pte || pte_W pte || pte_X pte.

(** The A bit must be set; a write to a leaf whose D bit is set faults. *)
Definition leaf_denied (pte : Z) (is_write : bool) : bool :=
  negb (pte_A pte) || (pte_D pte && is_write).

Definition sv32_walk (peek : Z → option Z) (satp va : Z) (is_write : bool)
  : sv32_result :=
  let offset := va mod 2 ^ 12 in
  let vpn0 := (va / 2 ^ 12) mod 2 ^ 10 in
  let vpn1 := (va / 2 ^ 22) mod 2 ^ 10 in
  let root := (satp * 2 ^ 12) mod 2 ^ 32 in
  match peek ((root + vpn1 * 4) mod 2 ^ 32) with
  | None => AccessFault
  | Some pte1 =>
    if pte_invalid pte1 then PageFault
    else if pte_leaf pte1 then
      if negb (pte_ppn0 pte1 =? 0) then PageFault
      else if leaf_denied pte1 is_write then PageFault
      else Physical ((pte_ppn1 pte1 * 2 ^ 22) mod 2 ^ 32 + vpn0 * 2 ^ 12 + offset)
    else
      match peek ((pte_ppn pte1 * 4096 + vpn0 * 4) mod 2 ^ 32) with
      | None => AccessFault
      | Some pte0 =>
        if pte_invalid pte0 then PageFault
        else if negb (pte_leaf pte0) then PageFault
        else if leaf_denied pte0 is_write then PageFault
        else Physical ((pte_ppn pte0 * 2 ^ 12) mod 2 ^ 32 + offset)
      end
  end.

(** How an outcome of [TranslateMemoryAddress] reads as a result of the
    walk. *)
Definition sv32_outcome (r : outcome Z) : option sv32_result :=
  match r with
  | Done pa => Some (Physical pa)
  | Throw E_PPNAccessFault => Some AccessFault
  | Throw E_PPNPageFault | Throw E_PageFault => Some PageFault
  | _ => None
  end.

(** * Frames *)

Section Relations.

Context {Memory FEnv : Type}.
Local Abbreviation VM := (VM Memory FEnv).
Local Abbreviation M := (M Memory FEnv).

(** [keeps R m]: however [m] ends, the state it leaves is [R]-related to
    the state it started from. *)
Definition keeps {A} (R : relation VM) (m : M A) : Prop := ∀ s, R s (m s).2.

Definition same_pc : relation VM := λ s s', pc s' = pc s.

Definition same_counters : relation VM := λ s s',
  cycles s' = cycles s ∧ privilege_level s' = privilege_level s
  ∧ running s' = running s ∧ break_points s' = break_points s
  ∧ time s' = time s.

Definition same_x0 : relation VM := λ s s',
  regs s' !!! 0%fin = regs s !!! 0%fin.

Definition same_fregs : relation VM := λ s s', fregs s' = fregs s.

Definition unchanged : relation VM := λ s s', s' = s.

(** [wp otherwise m Q s]: run from [s], [m] returns a value and a state
    that satisfy [Q]; [otherwise] decides the case where it does not return
    ([False]: it must return; [True]: nothing is asked then). *)
Definition wp {A} (otherwise : Prop) (m : M A) (Q : A → VM → Prop) (s : VM)
  : Prop :=
  match m s with
  | (Done a, s') => Q a s'
  | _ => otherwise
  end.

(** Outside [fcsr] and [mhartid] (the two keys the step loop reads through
    [operator[]]) the set of populated CSR addresses does not change. *)
Definition same_csr_keys : relation VM := λ s s',
  ∀ k, k ≠ CSR_FCSR → k ≠ CSR_MHARTID →
       (csrs s' !! k = None ↔ csrs s !! k = None).

End Relations.

(** * Reachable states *)

Section Reachable.

Context {Memory FEnv : Type}.
Context `{!MemoryBus Memory} `{!HostFP FEnv} `{!Externals Memory}.

(** The states a hart goes through: it is constructed, it may be reset by
    [Setup], and it takes turns of the step loop, one at a time or through
    [Step], whatever their outcome. *)
Inductive reachable : VM Memory FEnv → Prop :=
| reach_constructed memory env now starting_pc hart_id :
    reachable (VirtualMachine memory env now starting_pc hart_id)
| reach_setup s : reachable s → reachable (Setup s)
| reach_turn s : reachable s → reachable (iteration s).2
| reach_step steps s : reachable s → reachable (Step steps s).2.

End Reachable.

(** * A platform to run the model on

    A bus of 32-bit words keyed by address, an FPU that returns zero and
    raises nothing, no ECALL handler, and a decoder for the few encodings
    the examples use. *)
Module Sample.

Fixpoint fin_of_nat (m n : nat) : fin (S m) :=
  match n, m with
  | S n', S m' => FS (fin_of_nat m' n')
  | _, _ => 0%fin
  end.

Definition to_lane (z : Z) : lane := fin_of_nat 31 (Z.to_nat z).

Definition word_op (f : Z → Z → Z) (addr v : Z) (m : gmap Z Z)
  : option (Z * gmap Z Z) :=
  old ← m !! addr; Some (old, <[addr := wrap32 (f old v)]> m).

#[global] Instance bus : MemoryBus (gmap Z Z) := {|
  ReadByte addr m := wrap8 <$> m !! addr;
  ReadHalf addr m := wrap16 <$> m !! addr;
  ReadWord addr m := m !! addr;
  WriteByte addr v m := _ ← m !! addr; Some (<[addr := wrap8 v]> m);
  WriteHalf addr v m := _ ← m !! addr; Some (<[addr := wrap16 v]> m);
  WriteWord addr v m := _ ← m !! addr; Some (<[addr := wrap32 v]> m);
  PeekWord addr m := m !! addr;
  ReadWordReserved addr hart m := old ← m !! addr; Some (old, m);
  WriteWordConditional addr v hart m :=
    _ ← m !! addr; Some (true, <[addr := wrap32 v]> m);
  AtomicSwap := word_op (λ old v, v);
  AtomicAdd := word_op Z.add;
  AtomicXor := word_op Z.lxor;
  AtomicAnd := word_op Z.land;
  AtomicOr := word_op Z.lor;
  AtomicMin := word_op (λ old v, if AsSigned old <? AsSigned v then old else v);
  AtomicMax := word_op (λ old v, if AsSigned old <? AsSigned v then v else old);
  AtomicMinU := word_op Z.min;
  AtomicMaxU := word_op Z.max
|}.

#[global] Instance fpu : HostFP unit := {|
  fesetround _ env := env;
  fegetexceptflag _ := 0;
  FE_TONEAREST := 0;
  FE_TOWARDZERO := 0xc00;
  FE_DOWNWARD := 0x400;
  FE_UPWARD := 0x800;
  FE_DIVBYZERO := 0x04;
  FE_INEXACT := 0x20;
  FE_INVALID := 0x01;
  FE_OVERFLOW := 0x08;
  FE_UNDERFLOW := 0x10;
  default_rounding_mode := 0;
  host_eval _ _ env := (0, env)
|}.

(** ADDI, SRAI, ECALL, EBREAK and the rest INVALID. *)
Definition decode (word : Z) : RVInstruction :=
  let opcode := bits 0 7 word in
  let funct3 := bits 12 3 word in
  let funct7 := bits 25 7 word in
  let fields t imm :=
    mkInstr t (to_lane (bits 7 5 word)) (to_lane (bits 15 5 word))
            (to_lane (bits 20 5 word)) (to_lane (bits 27 5 word)) imm funct3 in
  if word =? 0x00000073 then fields ECALL 0
  else if word =? 0x00100073 then fields EBREAK 0
  else if (opcode =? 0x13) && (funct3 =? 0)
  then fields ADDI (SignExtend (bits 20 12 word) 11)
  else if (opcode =? 0x13) && (funct3 =? 5) && (funct7 =? 0x20)
  then fields SRAI 0
  else fields INVALID 0.

#[global] Instance externals : Externals (gmap Z Z) := {|
  FromUInt32 := decode;
  ecall_handlers := ∅;
  Float_default := mkFloat 0 false
|}.

(** A hart constructed over [mem], started at [starting_pc]. *)
Definition boot (mem : gmap Z Z) (starting_pc : Z) : VM (gmap Z Z) unit :=
  VirtualMachine mem tt 0 starting_pc 0.

(** A bus holding the single instruction [word] at address [0x1000], and
    the hart started there. *)
Definition program (word : Z) : gmap Z Z := {[ 0x1000 := word ]}.
Definition start (word : Z) : VM (gmap Z Z) unit := boot (program word) 0x1000.

(** [addi x0, x0, 5]. *)
Definition ADDI_X0 : Z := 0x00500013.

(** A root page table at address 0 ([satp] is 0 after reset) whose entry 1
    is a 4 MiB superpage: V, R and A set, [PPN_1] = 2. *)
Definition page_table : gmap Z Z := {[ 4 := 0x200043 ]}.

(** [fmv.w.x f1, x2] and [fmin.s f1, f2, f2]. *)
Definition FMV_W_X_1_2 : RVInstruction :=
  mkInstr FMV_W_X 1%fin 2%fin 0%fin 0%fin 0 0.
Definition FMIN_S_1_2_2 : RVInstruction :=
  mkInstr FMIN_S 1%fin 2%fin 2%fin 0%fin 0 0.

(** A hart whose float lanes all hold the single-precision quiet NaN with
    a zero upper half. *)
Definition nan_lanes : VM (gmap Z Z) unit :=
  with_fregs (vreplicate 32 (mkFloat 0x7fc00000 false)) (start 0).

End Sample.

(** * Further notions

    What the properties of the second half of the development are stated
    with: classes of instructions read off the [case] labels of the
    source, relations between the state before and after, and the snapshot
    of the CSR file. *)

(** The instructions whose case calls a writing operation of the bus, and
    ECALL, whose handler is given the bus. *)
Definition touches_memory (t : InstrType) : bool :=
  match t with
  | SB | SH | SW | FSW | FSD | LR_W | SC_W
  | AMOSWAP_W | AMOADD_W | AMOXOR_W | AMOAND_W | AMOOR_W
  | AMOMIN_W | AMOMAX_W | AMOMINU_W | AMOMAXU_W | ECALL => true
  | _ => false
  end.

(** The six cases that call [WriteCSR]. *)
Definition is_csr_op (t : InstrType) : bool :=
  match t with
  | CSRRW | CSRRS | CSRRC | CSRRWI | CSRRSI | CSRRCI => true
  | _ => false
  end.

Definition is_division (t : InstrType) : bool :=
  match t with DIV | DIVU | REM | REMU => true | _ => false end.

(** The [case] labels of [WriteCSR] that return without storing. *)
Definition read_only_csr (csr : Z) : bool :=
  (csr =? CSR_MVENDORID) || (csr =? CSR_MARCHID) || (csr =? CSR_MIMPID)
  || (csr =? CSR_MHARTID) || (csr =? CSR_MISA) || (csr =? CSR_MINSTRET)
  || (csr =? CSR_MINSTRETH) || (csr =? CSR_CYCLE) || (csr =? CSR_CYCLEH)
  || (csr =? CSR_TIME) || (csr =? CSR_TIMEH).

(** The three ranges of performance-monitor CSRs that [ReadCSR] answers
    with 0. *)
Definition hpm_csr (csr : Z) : bool :=
  ((CSR_MHPMEVENT3 <=? csr)
   && (csr <? CSR_MHPMEVENT3 + CSR_PERFORMANCE_EVENT_MAX - 3))
  || ((CSR_MHPMCOUNTER3 <=? csr)
      && (csr <? CSR_MHPMCOUNTER3 + CSR_PERF_COUNTER_MAX - 3))
  || ((CSR_MHPMCOUNTER3H <=? csr)
      && (csr <? CSR_MHPMCOUNTER3H + CSR_PERF_COUNTER_MAX - 3)).

(** The [case] labels of [ReadCSR] that are answered from [cycles] and
    [time]. *)
Definition counter_csr (csr : Z) : bool :=
  (csr =? CSR_MCYCLE) || (csr =? CSR_CYCLE) || (csr =? CSR_MCYCLEH)
  || (csr =? CSR_CYCLEH) || (csr =? CSR_TIME) || (csr =? CSR_TIMEH).

Definition width_bits (w : fwidth) : Z :=
  match w with W32 => 32 | W64 => 64 end.

(** The sign-injection instructions: the width they work on, and the sign
    of the result as the ISA gives it from the signs of [rs1] and [rs2]
    (FSGNJ: the sign of [rs2]; FSGNJN: its opposite; FSGNJX: the exclusive
    or of the two). *)
Definition sign_injection (t : InstrType) : option (fwidth * (Z → Z → Z)) :=
  match t with
  | FSGNJ_S => Some (W32, λ sa sb, sb)
  | FSGNJN_S => Some (W32, λ sa sb, 1 - sb)
  | FSGNJX_S => Some (W32, λ sa sb, (sa + sb) mod 2)
  | FSGNJ_D => Some (W64, λ sa sb, sb)
  | FSGNJN_D => Some (W64, λ sa sb, 1 - sb)
  | FSGNJX_D => Some (W64, λ sa sb, (sa + sb) mod 2)
  | _ => None
  end.

(** The top bit of a lane's value and the bits below it. *)
Definition sign_of (w : fwidth) (v : Float) : Z :=
  fval w v / 2 ^ (width_bits w - 1).
Definition magnitude_of (w : fwidth) (v : Float) : Z :=
  fval w v mod 2 ^ (width_bits w - 1).

Section MoreRelations.

Context {Memory FEnv : Type}.
Local Abbreviation VM := (VM Memory FEnv).
Local Abbreviation M := (M Memory FEnv).

Definition same_memory : relation VM := λ s s', memory s' = memory s.

Definition same_reg (r : lane) : relation VM := λ s s',
  regs s' !!! r = regs s !!! r.

Definition same_freg (r : lane) : relation VM := λ s s',
  fregs s' !!! r = fregs s !!! r.

Definition same_csr_values : relation VM := λ s s',
  ∀ k, k ≠ CSR_FCSR → k ≠ CSR_MHARTID → csrs s' !! k = csrs s !! k.

(** Bits 7:5 of [fcsr], the dynamic rounding mode [ChangeRoundingMode]
    reads; a missing [fcsr] reads as 0, as [csrs[CSR_FCSR]] makes it. *)
Definition frm_field (s : VM) : Z :=
  Z.land (Z.shiftr (default 0 (csrs s !! CSR_FCSR)) 5) 7.

Definition same_frm : relation VM := λ s s', frm_field s' = frm_field s.

Definition same_registers : relation VM := λ s s',
  regs s' = regs s ∧ fregs s' = fregs s ∧ pc s' = pc s.

(** [throws_keep R m]: when [m] throws, the state at the throw is
    [R]-related to the state [m] started from. *)
Definition throws_keep {A} (R : relation VM) (m : M A) : Prop :=
  ∀ s e s', m s = (Throw e, s') → R s s'.

Definition never_throws {A} (m : M A) : Prop :=
  ∀ s e s', m s ≠ (Throw e, s').

(** [GetCSRSnapshot]: a copy of the CSR file with the six counter entries
    overwritten from [cycles] and [time]. *)
Definition GetCSRSnapshot (s : VM) : gmap Z Z :=
  let csrs := csrs s in
  let mcycle := wrap32 (cycles s) in
  let mcycleh := wrap32 (Z.shiftr (cycles s) 32) in
  let csrs := <[CSR_MCYCLE := mcycle]> csrs in
  let csrs := <[CSR_MCYCLEH := mcycleh]> csrs in
  let csrs := <[CSR_CYCLE := mcycle]> csrs in
  let csrs := <[CSR_CYCLEH := mcycleh]> csrs in
  let csrs := <[CSR_TIME := wrap32 (time s)]> csrs in
  <[CSR_TIMEH := wrap32 (Z.shiftr (time s) 32)]> csrs.

(** The [running] member is set from outside the file. *)
Definition with_running (x : bool) (s : VM) : VM :=
  mkVM (regs s) (fregs s) (pc s) (csrs s) (privilege_level s) (cycles s)
       (memory s) (fenv s) x (break_points s) (ticks s) (time s).

End MoreRelations.

Section Results.

Context {Memory FEnv : Type}.
Context `{!MemoryBus Memory} `{!HostFP FEnv} `{!Externals Memory}.

(** The value an instruction leaves in its destination register. *)
Definition result_of (instr : RVInstruction) (s : VM Memory FEnv) : Z :=
  regs (dispatch instr s).2 !!! rd instr.

(** LB and LH: the bus operation and the width of what it returns. *)
Definition signed_load (t : InstrType)
  : option ((Z → Memory → option Z) * Z) :=
  match t with
  | LB => Some (ReadByte, 8)
  | LH => Some (ReadHalf, 16)
  | _ => None
  end.

End Results.

(** Further states and instructions to run the model on. *)
Module Examples.

(** [ebreak]. *)
Definition EBREAK_WORD : Z := 0x00100073.

(** A running hart about to execute [addi x0, x0, 5] at [0x1000]; an
    [ebreak] follows it. *)
Definition before_ebreak : VM (gmap Z Z) unit :=
  with_running true
    (Sample.boot {[ 0x1000 := Sample.ADDI_X0; 0x1004 := EBREAK_WORD ]} 0x1000).

(** A running hart whose only instruction is [addi x0, x0, 5]. *)
Definition running_addi : VM (gmap Z Z) unit :=
  with_running true (Sample.start Sample.ADDI_X0).

(** A hart whose integer registers all hold 7. *)
Definition sevens : VM (gmap Z Z) unit :=
  with_regs (vreplicate 32 7) (Sample.start 0).

(** An R-type instruction on [x1 <- x2, x3]. *)
Definition r_type (t : InstrType) : RVInstruction :=
  mkInstr t 1%fin 2%fin 3%fin 0%fin 0 0.

(** [lb x1, 0x1000(x0)] and [jalr x1, 7(x1)]. *)
Definition LB_1 : RVInstruction := mkInstr LB 1%fin 0%fin 0%fin 0%fin 0x1000 0.
Definition JALR_1_1 : RVInstruction := mkInstr JALR 1%fin 1%fin 0%fin 0%fin 7 0.

(** [fmv.x.w x3, f1]. *)
Definition FMV_X_W_3_1 : RVInstruction :=
  mkInstr FMV_X_W 3%fin 1%fin 0%fin 0%fin 0 0.

(** A decoder that reads every word as [csrrs x5, cycle, x0], and a hart
    constructed over it. *)
Definition rdcycle_only : Externals (gmap Z Z) := {|
  FromUInt32 _ := mkInstr CSRRS 5%fin 0%fin 0%fin 0%fin CSR_CYCLE 0;
  ecall_handlers := ∅;
  Float_default := mkFloat 0 false
|}.

Definition rdcycle_start : VM (gmap Z Z) unit :=
  VirtualMachine (Externals0 := rdcycle_only) (Sample.program 0) tt 0 0x1000 0.

End Examples.

(** * Rules for [keeps] *)

Section FrameRules.

Context {Memory FEnv : Type} `{!MemoryBus Memory} `{!HostFP FEnv}.
Context (R : relation (VM Memory FEnv)) `{!PreOrder R}.

Local Abbreviation VM := (VM Memory FEnv).
Local Abbreviation M := (M Memory FEnv).

Lemma keeps_ret {A} (a : A) : keeps R (ret a).
Proof. intros s. reflexivity. Qed.

Lemma keeps_throw {A} e : keeps R (throw (A := A) e).
Proof. intros s. reflexivity. Qed.

Lemma keeps_undefined {A} : keeps R (undefined (A := A)).
Proof. intros s. reflexivity. Qed.

Lemma keeps_gets {A} (f : VM → A) : keeps R (gets f).
Proof. intros s. reflexivity. Qed.

Lemma keeps_bind {A B} (m : M A) (k : A → M B) :
  keeps R m → (∀ a, keeps R (k a)) → keeps R (bind m k).
Proof.
  intros Hm Hk s. unfold bind. specialize (Hm s).
  destruct (m s) as [[a | e |] s1]; simpl in *; try assumption.
  etransitivity; [exact Hm | apply Hk].
Qed.

Lemma keeps_modify (f : VM → VM) : (∀ s, R s (f s)) → keeps R (modify f).
Proof. intros Hf s. apply Hf. Qed.

Lemma keeps_csrs_index k :
  (∀ s, csrs s !! k = None → R s (with_csrs (<[k := 0]> (csrs s)) s)) →
  keeps R (csrs_index k).
Proof.
  intros Hf s. unfold csrs_index.
  destruct (csrs s !! k) eqn:E; simpl; [reflexivity | by apply Hf].
Qed.

Lemma keeps_bus_read op addr : keeps R (bus_read op addr).
Proof. intros s. unfold bus_read. destruct (op _ _); reflexivity. Qed.

Lemma keeps_bus_write op addr v :
  (∀ s m, R s (with_memory m s)) → keeps R (bus_write op addr v).
Proof.
  intros Hf s. unfold bus_write.
  destruct (op _ _ _); simpl; [apply Hf | reflexivity].
Qed.

Lemma keeps_bus_atomic {A} (op : Memory → option (A * Memory)) :
  (∀ s m, R s (with_memory m s)) → keeps R (bus_atomic op).
Proof.
  intros Hf s. unfold bus_atomic.
  destruct (op _) as [[a m] |]; simpl; [apply Hf | reflexivity].
Qed.

Lemma keeps_host e args :
  (∀ s env, R s (with_fenv env s)) → keeps R (host e args).
Proof.
  intros Hf s. unfold host. destruct (host_eval _ _ _) as [r env]. apply Hf.
Qed.

Lemma keeps_call_handler handler hart :
  (∀ s m x f, R s (with_fregs f (with_regs x (with_memory m s)))) →
  keeps R (call_handler handler hart).
Proof.
  intros Hf s. unfold call_handler.
  destruct (handler _ _ _ _) as [r [[m x] f]]. destruct r; apply Hf.
Qed.

End FrameRules.

Ltac head_of t := lazymatch t with ?f _ => head_of f | _ => t end.

(** Walks a member function down to its primitive actions: [leaf] proves
    that one field update respects the relation, [special] may close a
    sub-term as a whole. *)
Ltac walk_step special leaf :=
  first
    [ special
    | lazymatch goal with
      | |- keeps _ (bind _ _) => apply keeps_bind; [tc_solve | | intros ?]
      | |- keeps _ (ret _) => apply keeps_ret; tc_solve
      | |- keeps _ (throw _) => apply keeps_throw; tc_solve
      | |- keeps _ undefined => apply keeps_undefined; tc_solve
      | |- keeps _ (gets _) => apply keeps_gets; tc_solve
      | |- keeps _ (bus_read _ _) => apply keeps_bus_read; tc_solve
      | |- keeps _ (modify _) => apply keeps_modify; intros; leaf
      | |- keeps _ (csrs_index _) =>
          apply keeps_csrs_index; first [tc_solve | intros; leaf]
      | |- keeps _ (bus_write _ _ _) =>
          apply keeps_bus_write; first [tc_solve | intros; leaf]
      | |- keeps _ (bus_atomic _) =>
          apply keeps_bus_atomic; first [tc_solve | intros; leaf]
      | |- keeps _ (host _ _) => apply keeps_host; intros; leaf
      | |- keeps _ (call_handler _ _) =>
          apply keeps_call_handler; intros; leaf
      | |- keeps _ (match ?x with _ => _ end) => destruct x
      | |- keeps _ (let _ := _ in _) => cbv zeta
      | |- keeps _ ?m => let h := head_of m in unfold h
      end ].

Ltac walk special leaf := repeat walk_step special leaf.

(** * What the first [switch] leaves alone *)

Section Dispatch.

Context {Memory FEnv : Type}.
Context `{!MemoryBus Memory} `{!HostFP FEnv} `{!Externals Memory}.

Local Abbreviation VM := (VM Memory FEnv).
Local Abbreviation M := (M Memory FEnv).

#[global] Instance same_pc_preorder : PreOrder (same_pc (Memory := Memory) (FEnv := FEnv)).
Proof.
  split; [intros s; reflexivity |].
  intros a b c H1 H2. unfold same_pc in *. congruence.
Qed.

#[global] Instance same_counters_preorder :
  PreOrder (same_counters (Memory := Memory) (FEnv := FEnv)).
Proof.
  split; [intros s; by repeat split |].
  intros a b c H1 H2. unfold same_counters in *. intuition congruence.
Qed.

#[global] Instance same_x0_preorder : PreOrder (same_x0 (Memory := Memory) (FEnv := FEnv)).
Proof.
  split; [intros s; reflexivity |].
  intros a b c H1 H2. unfold same_x0 in *. congruence.
Qed.

#[global] Instance same_fregs_preorder :
  PreOrder (same_fregs (Memory := Memory) (FEnv := FEnv)).
Proof.
  split; [intros s; reflexivity |].
  intros a b c H1 H2. unfold same_fregs in *. congruence.
Qed.

(** Only the eight jumps and branches write [pc]. *)
Lemma dispatch_same_pc instr :
  writes_pc (type instr) = false → keeps same_pc (dispatch instr).
Proof.
  intros Hw. unfold dispatch.
  destruct (type instr) eqn:Ht; try discriminate Hw.
  all: walk fail ltac:(reflexivity).
Qed.

(** No instruction touches the cycle counter, the privilege level, the
    running flag, the break points or the timer. *)
Lemma dispatch_same_counters instr : keeps same_counters (dispatch instr).
Proof.
  unfold dispatch.
  destruct (type instr) eqn:Ht.
  all: walk fail ltac:(by repeat split).
Qed.

Lemma same_x0_set_reg (r : lane) v (s : VM) :
  r ≠ 0%fin → same_x0 s (with_regs (vinsert r v (regs s)) s).
Proof. intros Hr. unfold same_x0. simpl. by rewrite vlookup_insert_ne. Qed.

(** An instruction whose [rd] is not lane 0 leaves lane 0 alone, unless it
    hands the register file to an ECALL handler. *)
Lemma dispatch_same_x0 instr :
  rd instr ≠ 0%fin → type instr ≠ ECALL → keeps same_x0 (dispatch instr).
Proof.
  intros Hrd Hty. unfold dispatch.
  destruct (type instr) eqn:Ht; try congruence.
  all: walk fail ltac:(first [by apply same_x0_set_reg | reflexivity]).
Qed.

End Dispatch.

(** * One turn of the step loop *)

Section Iteration.

Context {Memory FEnv : Type}.
Context `{!MemoryBus Memory} `{!HostFP FEnv} `{!Externals Memory}.

Local Abbreviation VM := (VM Memory FEnv).
Local Abbreviation M := (M Memory FEnv).

Lemma exec_branch_done taken instr (s : VM) :
  ∃ s', exec_branch taken instr s = (Done tt, s').
Proof.
  unfold exec_branch, bind, reg, gets, set_pc, modify. simpl.
  destruct (taken _ _); eauto.
Qed.

(** A jump or branch always completes. *)
Lemma dispatch_jump_done instr (s : VM) :
  writes_pc (type instr) = true → ∃ s', dispatch instr s = (Done tt, s').
Proof.
  intros Hw. unfold dispatch.
  destruct (type instr); try discriminate Hw;
    try apply exec_branch_done; eexists; reflexivity.
Qed.

(** The anatomy of one turn: the counter is bumped, the instruction is
    fetched and dispatched, and only after a completed dispatch are [pc]
    advanced and lane 0 cleared. *)
Lemma iteration_anatomy (s : VM) :
  let s1 := with_cycles (wrap64 (cycles s + 1)) s in
  iteration s =
  if nonzero (Z.land (pc s) 3) then (Throw E_InvalidPC, s1)
  else
    match ReadWord (wrap32 (pc s)) (memory s) with
    | None => (Throw E_Memory, s1)
    | Some word =>
      let instr := FromUInt32 word in
      match dispatch instr s1 with
      | (Done _, s2) =>
        let s3 := if writes_pc (type instr) then s2
                  else with_pc (wrap32 (pc s2 + 4)) s2 in
        let s4 := if decide (rd instr = 0%fin)
                  then with_regs (vinsert (rd instr) (wrap32 0) (regs s3)) s3
                  else s3 in
        IsBreakPoint (pc s4) s4
      | (Throw e, s2) => (Throw e, s2)
      | (Undefined, s2) => (Undefined, s2)
      end
    end.
Proof.
  unfold iteration, bind, modify, gets, throw, bus_read. simpl.
  destruct (nonzero _); [reflexivity |].
  destruct (ReadWord _ _) as [word |]; [| reflexivity].
  destruct (dispatch _ _) as [[[] | e |] s2]; try reflexivity.
  destruct (writes_pc _), (decide _); reflexivity.
Qed.

Lemma IsBreakPoint_state addr (s : VM) :
  (IsBreakPoint addr s).2 = s.
Proof. reflexivity. Qed.

Lemma IsBreakPoint_done addr (s : VM) r s' :
  IsBreakPoint addr s = (r, s') → s' = s ∧ ∃ b, r = Done b.
Proof. unfold IsBreakPoint, gets. intros [= <- <-]. eauto. Qed.

(** C9.  An instruction that completes and is neither a conditional branch
    nor JAL nor JALR leaves [pc] at its old value plus 4 (in 32-bit
    arithmetic). *)
Theorem pc_advances_by_four (s : VM) word b s' :
  ReadWord (wrap32 (pc s)) (memory s) = Some word →
  writes_pc (type (FromUInt32 word)) = false →
  iteration s = (Done b, s') →
  pc s' = wrap32 (pc s + 4).
Proof.
  intros Hword Hw Hit. rewrite iteration_anatomy in Hit. simpl in Hit.
  destruct (nonzero _); [discriminate |].
  rewrite Hword in Hit.
  pose proof (dispatch_same_pc _ Hw
                (with_cycles (wrap64 (cycles s + 1)) s)) as Hpc.
  destruct (dispatch _ _) as [[[] | e |] s2]; try discriminate.
  rewrite Hw in Hit. apply IsBreakPoint_done in Hit as [-> _].
  unfold same_pc in Hpc. simpl in Hpc.
  destruct (decide _); simpl; by rewrite Hpc.
Qed.

(** C10.  When a turn of the step loop ends in a thrown error, [pc] still
    holds the address of the failing instruction and the cycle counter has
    been incremented for it. *)
Theorem fault_keeps_pc_and_counts_cycle (s : VM) e s' :
  iteration s = (Throw e, s') →
  pc s' = pc s ∧ cycles s' = wrap64 (cycles s + 1).
Proof.
  intros Hit. rewrite iteration_anatomy in Hit. simpl in Hit.
  destruct (nonzero _); [by injection Hit as _ <- |].
  destruct (ReadWord _ _) as [word |]; [| by injection Hit as _ <-].
  set (s1 := with_cycles _ s) in *.
  pose proof (dispatch_same_counters (FromUInt32 word) s1) as (Hc & _).
  destruct (writes_pc (type (FromUInt32 word))) eqn:Hw.
  - destruct (dispatch_jump_done (FromUInt32 word) s1 Hw) as [s2 Hd].
    rewrite Hd in Hit. apply IsBreakPoint_done in Hit as [_ [b Hb]].
    discriminate.
  - pose proof (dispatch_same_pc _ Hw s1) as Hpc.
    destruct (dispatch _ _) as [[[] | e' |] s2]; simpl in *.
    + apply IsBreakPoint_done in Hit as [_ [b Hb]]. discriminate.
    + injection Hit as _ <-. by split.
    + discriminate.
Qed.

(** C1.  After every completed instruction lane 0 of the integer register
    file holds 0: a value written to it is cleared before the next fetch.
    (The ECALL encoding has no [rd] field: its decoded [rd] is lane 0.) *)
Theorem x0_reads_zero (s : VM) word b s' :
  ReadWord (wrap32 (pc s)) (memory s) = Some word →
  (type (FromUInt32 word) = ECALL → rd (FromUInt32 word) = 0%fin) →
  regs s !!! 0%fin = 0 →
  iteration s = (Done b, s') →
  regs s' !!! 0%fin = 0.
Proof.
  intros Hword Hecall H0 Hit. rewrite iteration_anatomy in Hit. simpl in Hit.
  destruct (nonzero _); [discriminate |].
  rewrite Hword in Hit.
  set (s1 := with_cycles _ s) in *. set (instr := FromUInt32 word) in *.
  destruct (dispatch _ _) as [[[] | e |] s2] eqn:Hd;
    try discriminate.
  apply IsBreakPoint_done in Hit as [-> _].
  destruct (decide (rd instr = 0%fin)) as [Hrd | Hrd]; simpl.
  - rewrite Hrd. by rewrite vlookup_insert.
  - assert (type instr ≠ ECALL) as Hty by (intros Ht; auto).
    pose proof (dispatch_same_x0 instr Hrd Hty s1)
      as Hx. rewrite Hd in Hx. unfold same_x0 in Hx. simpl in Hx.
    destruct (writes_pc _); simpl; by rewrite Hx.
Qed.

End Iteration.

Lemma pc_advances_by_four_witness :
  pc (iteration (Sample.start Sample.ADDI_X0)).2 = 0x1004.
Proof.
  apply (pc_advances_by_four (Sample.start Sample.ADDI_X0) Sample.ADDI_X0 false).
  - reflexivity.
  - reflexivity.
  - vm_compute. reflexivity.
Defined.

Lemma fault_keeps_pc_and_counts_cycle_witness :
  pc (iteration (Sample.start 0)).2 = 0x1000
  ∧ cycles (iteration (Sample.start 0)).2 = 1.
Proof.
  apply (fault_keeps_pc_and_counts_cycle (Sample.start 0) E_InvalidInstruction).
  vm_compute. reflexivity.
Defined.

Lemma x0_reads_zero_witness :
  regs (iteration (Sample.start Sample.ADDI_X0)).2 !!! 0%fin = 0.
Proof.
  apply (x0_reads_zero (Sample.start Sample.ADDI_X0) Sample.ADDI_X0 false).
  - reflexivity.
  - intros H. vm_compute in H. discriminate H.
  - reflexivity.
  - vm_compute. reflexivity.
Defined.

(** * Rules for [wp] *)

Section WpRules.

Context {Memory FEnv : Type}.
Context `{!MemoryBus Memory} `{!HostFP FEnv} `{!Externals Memory}.

Local Abbreviation VM := (VM Memory FEnv).
Local Abbreviation M := (M Memory FEnv).

Lemma wp_ret {A} o (a : A) (Q : A → VM → Prop) s : Q a s → wp o (ret a) Q s.
Proof. intros H. exact H. Qed.

Lemma wp_bind {A B} o (m : M A) (k : A → M B) (Q : B → VM → Prop) s :
  wp o m (λ a s1, wp o (k a) Q s1) s → wp o (bind m k) Q s.
Proof.
  unfold wp, bind. destruct (m s) as [[a | e |] s1]; auto.
Qed.

Lemma wp_gets {A} o (f : VM → A) (Q : A → VM → Prop) s :
  Q (f s) s → wp o (gets f) Q s.
Proof. intros H. exact H. Qed.

Lemma wp_modify o (f : VM → VM) (Q : unit → VM → Prop) s :
  Q tt (f s) → wp o (modify f) Q s.
Proof. intros H. exact H. Qed.

Lemma wp_throw {A} e (Q : A → VM → Prop) s : wp True (throw e) Q s.
Proof. exact I. Qed.

Lemma wp_undefined {A} (Q : A → VM → Prop) s : wp True undefined Q s.
Proof. exact I. Qed.

Lemma wp_csrs_index o k (Q : Z → VM → Prop) s :
  (∀ v, csrs s !! k = Some v → Q v s) →
  (csrs s !! k = None → Q 0 (with_csrs (<[k := 0]> (csrs s)) s)) →
  wp o (csrs_index k) Q s.
Proof.
  intros Hs Hn. unfold wp, csrs_index.
  destruct (csrs s !! k) eqn:E; [by apply Hs | by apply Hn].
Qed.

Lemma wp_host o e args (Q : Z → VM → Prop) s :
  (∀ r env, Q r (with_fenv env s)) → wp o (host e args) Q s.
Proof.
  intros H. unfold wp, host. destruct (host_eval _ _ _) as [r env]. apply H.
Qed.

Lemma wp_bus_read op addr (Q : Z → VM → Prop) s :
  (∀ v, op (wrap32 addr) (memory s) = Some v → Q v s) →
  wp True (bus_read op addr) Q s.
Proof.
  intros H. unfold wp, bus_read. destruct (op _ _) eqn:E; [by apply H | exact I].
Qed.


Lemma wp_returns {A} (m : M A) (Q : A → VM → Prop) s :
  wp False m Q s → ∃ a s', m s = (Done a, s') ∧ Q a s'.
Proof.
  unfold wp. destruct (m s) as [[a | e |] s1]; [eauto | done | done].
Qed.

Lemma wp_result {A} o (m : M A) (Q : A → VM → Prop) s a s' :
  wp o m Q s → m s = (Done a, s') → Q a s'.
Proof. unfold wp. intros H E. by rewrite E in H. Qed.

End WpRules.

(** Symbolic execution of a member function, one action at a time. *)
Ltac wp_step :=
  lazymatch goal with
  | |- wp _ (bind _ _) _ _ => apply wp_bind
  | |- wp _ (ret _) _ _ => apply wp_ret
  | |- wp _ (gets _) _ _ => apply wp_gets
  | |- wp _ (modify _) _ _ => apply wp_modify
  | |- wp True (throw _) _ _ => apply wp_throw
  | |- wp True undefined _ _ => apply wp_undefined
  | |- wp _ (csrs_index _) _ _ => apply wp_csrs_index; [intros ? ? | intros ?]
  | |- wp _ (host _ _) _ _ => apply wp_host; intros ? ?
  | |- wp True (bus_read _ _) _ _ => apply wp_bus_read; intros ? ?
  | |- wp _ (let _ := _ in _) _ _ => cbv zeta
  | |- wp _ (match _ with _ => _ end) _ _ => progress cbv beta iota
  | |- wp _ ?m _ _ => let h := head_of m in unfold h
  end.

(** * The instructions at particular operands *)

Section Evaluations.

Context {Memory FEnv : Type}.
Context `{!MemoryBus Memory} `{!HostFP FEnv} `{!Externals Memory}.

Local Abbreviation VM := (VM Memory FEnv).
Local Abbreviation M := (M Memory FEnv).

Lemma regs_with_regs x (s : VM) : regs (with_regs x s) = x.
Proof. reflexivity. Qed.

Lemma fregs_with_fregs x (s : VM) : fregs (with_fregs x s) = x.
Proof. reflexivity. Qed.

(** C2.  SRAI and SRA test bit [32 - amount] of the operand and or in
    [-1U << amount]: on [0x80000000] shifted by 4 they write [0x08000000],
    where the arithmetic shift is [0xf8000000]. *)
Theorem sra_loses_the_sign (s : VM) :
  let s0 := with_regs (vinsert 3%fin 4 (vinsert 2%fin 0x80000000 (regs s))) s in
  let srai := mkInstr SRAI 1%fin 2%fin 4%fin 0%fin 0 0 in
  let sra := mkInstr SRA 1%fin 2%fin 3%fin 0%fin 0 0 in
  asr32 0x80000000 4 = 0xf8000000
  ∧ (∃ s', dispatch srai s0 = (Done tt, s') ∧ regs s' !!! 1%fin = 0x08000000)
  ∧ (∃ s', dispatch sra s0 = (Done tt, s') ∧ regs s' !!! 1%fin = 0x08000000).
Proof.
  intros s0 srai sra. split; [reflexivity |].
  assert (regs s0 !!! 2%fin = 0x80000000) as H2.
  { unfold s0. rewrite regs_with_regs, vlookup_insert_ne by done.
    apply vlookup_insert. }
  assert (regs s0 !!! 3%fin = 4) as H3.
  { unfold s0. rewrite regs_with_regs. apply vlookup_insert. }
  split.
  - assert (wp False (dispatch srai)
              (λ _ s', regs s' !!! 1%fin = 0x08000000) s0) as H.
    { unfold dispatch. cbn [type srai]. unfold exec_sra. repeat wp_step.
      cbn [rs1 rs2 rd srai]. rewrite H2.
      change (sra_value 2147483648 (idx 4%fin)) with (Some 0x08000000).
      repeat wp_step. rewrite regs_with_regs. apply vlookup_insert. }
    apply wp_returns in H as ([] & s' & Hs & Hr). eauto.
  - assert (wp False (dispatch sra)
              (λ _ s', regs s' !!! 1%fin = 0x08000000) s0) as H.
    { unfold dispatch. cbn [type sra]. unfold exec_sra. repeat wp_step.
      cbn [rs1 rs2 rd sra]. rewrite H2, H3.
      change (sra_value 2147483648 (Z.land 4 31)) with (Some 0x08000000).
      repeat wp_step. rewrite regs_with_regs. apply vlookup_insert. }
    apply wp_returns in H as ([] & s' & Hs & Hr). eauto.
Qed.

Lemma two_bits_is_no_class : ¬ single_class 0x50.
Proof.
  intros (k & Hk & E).
  assert (k = 0 ∨ k = 1 ∨ k = 2 ∨ k = 3 ∨ k = 4 ∨ k = 5 ∨ k = 6 ∨ k = 7
          ∨ k = 8 ∨ k = 9) as Hcases by lia.
  repeat (destruct Hcases as [-> | Hcases]; [discriminate E |]).
  subst k. discriminate E.
Qed.

(** C4.  FCLASS.S of [+0.0] writes [0x50], bits 4 and 6 together: the test
    for bit 6 asks only that the operand be neither subnormal nor a
    signalling NaN. *)
Theorem fclass_of_zero_sets_two_bits (s : VM) :
  let s0 := with_fregs (vinsert 2%fin (mkFloat 0 false) (fregs s)) s in
  let instr := mkInstr FCLASS_S 1%fin 2%fin 0%fin 0%fin 0 RM_ROUND_TO_ZERO in
  (∃ s', dispatch instr s0 = (Done tt, s') ∧ regs s' !!! 1%fin = 0x50)
  ∧ ¬ single_class 0x50.
Proof.
  intros s0 instr. split; [| apply two_bits_is_no_class].
  assert (wp False (dispatch instr) (λ _ s', regs s' !!! 1%fin = 0x50) s0) as H.
  { unfold dispatch. cbn [type instr]. unfold exec_fclass, require_rounding_mode.
    wp_step. unfold ChangeRoundingMode. cbn [rm instr].
    change (RM_ROUND_TO_ZERO =? RM_DYNAMIC) with false. cbv iota.
    unfold ChangeRoundingMode_fixed.
    change (RM_ROUND_TO_ZERO =? RM_ROUND_TO_NEAREST_TIES_EVEN) with false.
    change (RM_ROUND_TO_ZERO =? RM_ROUND_TO_ZERO) with true. cbv iota.
    repeat wp_step. cbn [rs1 rd instr fregs with_fenv].
    unfold s0. rewrite fregs_with_fregs, vlookup_insert.
    rewrite regs_with_regs, vlookup_insert. reflexivity. }
  apply wp_returns in H as ([] & s' & Hs & Hr). eauto.
Qed.

(** C3.  FCVT.W.S and FCVT.W.D of minus infinity write [0xffffffff], the
    integer -1, not [INT32_MIN]. *)
Theorem fcvt_w_of_minus_infinity (s : VM) :
  let s0 := with_fregs (vinsert 3%fin (mkFloat 0xfff0000000000000 true)
                          (vinsert 2%fin (mkFloat 0xff800000 false) (fregs s))) s in
  let fcvt_w_s :=
    mkInstr FCVT_W_S 1%fin 2%fin 0%fin 0%fin 0 RM_ROUND_TO_NEAREST_TIES_EVEN in
  let fcvt_w_d :=
    mkInstr FCVT_W_D 1%fin 3%fin 0%fin 0%fin 0 RM_ROUND_TO_NEAREST_TIES_EVEN in
  (∃ s', dispatch fcvt_w_s s0 = (Done tt, s') ∧ regs s' !!! 1%fin = 0xffffffff)
  ∧ (∃ s', dispatch fcvt_w_d s0 = (Done tt, s') ∧ regs s' !!! 1%fin = 0xffffffff)
  ∧ AsUnsigned INT32_MIN = 0x80000000.
Proof.
  intros s0 fcvt_w_s fcvt_w_d.
  assert (fregs s0 !!! 2%fin = mkFloat 0xff800000 false) as H2.
  { unfold s0. rewrite fregs_with_fregs, vlookup_insert_ne by done.
    apply vlookup_insert. }
  assert (fregs s0 !!! 3%fin = mkFloat 0xfff0000000000000 true) as H3.
  { unfold s0. rewrite fregs_with_fregs. apply vlookup_insert. }
  clearbody s0.
  split; [| split; [| reflexivity]].
  - assert (wp False (dispatch fcvt_w_s)
              (λ _ s', regs s' !!! 1%fin = 0xffffffff) s0) as H.
    { unfold dispatch. cbn [type fcvt_w_s].
      unfold exec_cvt_to_int, require_rounding_mode.
      wp_step. unfold ChangeRoundingMode. cbn [rm fcvt_w_s].
      change (RM_ROUND_TO_NEAREST_TIES_EVEN =? RM_DYNAMIC) with false. cbv iota.
      unfold ChangeRoundingMode_fixed.
      change (RM_ROUND_TO_NEAREST_TIES_EVEN =? RM_ROUND_TO_NEAREST_TIES_EVEN)
        with true. cbv iota.
      repeat wp_step. cbn [rs1 rd fcvt_w_s fregs with_fenv]. rewrite H2.
      change (is_inf (Class W32 (mkFloat 0xff800000 false))) with true.
      change (is_neg (Class W32 (mkFloat 0xff800000 false))) with true.
      cbv iota zeta. unfold SetFloatFlags, fcsr_or.
      repeat wp_step; rewrite regs_with_regs; apply vlookup_insert. }
    apply wp_returns in H as ([] & s' & Hs & Hr). eauto.
  - assert (wp False (dispatch fcvt_w_d)
              (λ _ s', regs s' !!! 1%fin = 0xffffffff) s0) as H.
    { unfold dispatch. cbn [type fcvt_w_d].
      unfold exec_cvt_to_int, require_rounding_mode.
      wp_step. unfold ChangeRoundingMode. cbn [rm fcvt_w_d].
      change (RM_ROUND_TO_NEAREST_TIES_EVEN =? RM_DYNAMIC) with false. cbv iota.
      unfold ChangeRoundingMode_fixed.
      change (RM_ROUND_TO_NEAREST_TIES_EVEN =? RM_ROUND_TO_NEAREST_TIES_EVEN)
        with true. cbv iota.
      repeat wp_step. cbn [rs1 rd fcvt_w_d fregs with_fenv]. rewrite H3.
      change (is_inf (Class W64 (mkFloat 0xfff0000000000000 true))) with true.
      change (is_neg (Class W64 (mkFloat 0xfff0000000000000 true))) with true.
      cbv iota zeta. unfold SetFloatFlags, fcsr_or.
      repeat wp_step; rewrite regs_with_regs; apply vlookup_insert. }
    apply wp_returns in H as ([] & s' & Hs & Hr). eauto.
Qed.

End Evaluations.

(** * The CSR file *)

Section CSRs.

Context {Memory FEnv : Type}.
Context `{!MemoryBus Memory} `{!HostFP FEnv} `{!Externals Memory}.

Local Abbreviation VM := (VM Memory FEnv).
Local Abbreviation M := (M Memory FEnv).


#[global] Instance same_csr_keys_preorder :
  PreOrder (same_csr_keys (Memory := Memory) (FEnv := FEnv)).
Proof.
  split; [intros s k _ _; reflexivity |].
  intros a b c H1 H2 k Hf Hh. rewrite (H2 k Hf Hh). by apply H1.
Qed.

Lemma WriteCSR_same_csr_keys csr value : keeps same_csr_keys (WriteCSR csr value : M unit).
Proof.
  intros s k _ _. unfold WriteCSR, bind, CSRPrivilegeCheck, gets, csrs_assign,
    modify, throw, ret. simpl.
  destruct (negb _); [reflexivity |]. simpl.
  destruct (csrs s !! csr) eqn:E; [| reflexivity].
  destruct (_ || _); simpl; [reflexivity |].
  destruct (decide (csr = k)) as [-> | Hne].
  - rewrite lookup_insert_eq, E. split; discriminate.
  - by rewrite lookup_insert_ne.
Qed.

Ltac csr_keys_leaf :=
  unfold same_csr_keys; intros ? ? ?; simpl;
  first [reflexivity | by rewrite lookup_insert_ne].

Lemma dispatch_same_csr_keys instr : keeps same_csr_keys (dispatch instr : M unit).
Proof.
  unfold dispatch.
  destruct (type instr) eqn:Ht.
  all: walk ltac:(idtac; lazymatch goal with |- keeps _ (WriteCSR _ _) => apply WriteCSR_same_csr_keys end) ltac:(csr_keys_leaf).
Qed.

Lemma iteration_same_csr_keys : keeps same_csr_keys (iteration : M bool).
Proof.
  unfold iteration.
  walk ltac:(idtac; lazymatch goal with |- keeps _ (dispatch _) => apply dispatch_same_csr_keys end) ltac:(csr_keys_leaf).
Qed.

Lemma keeps_weaken {A} (R R' : relation VM) (m : M A) :
  (∀ s s', R s s' → R' s s') → keeps R m → keeps R' m.
Proof. intros HR Hm s. apply HR, Hm. Qed.

Lemma iteration_same_privilege (s : VM) :
  privilege_level (iteration s).2 = privilege_level s.
Proof.
  pose proof (dispatch_same_counters) as Hd.
  rewrite iteration_anatomy. simpl.
  destruct (nonzero _); [reflexivity |].
  destruct (ReadWord _ _) as [word |]; [| reflexivity].
  specialize (Hd (FromUInt32 word) (with_cycles (wrap64 (cycles s + 1)) s)).
  destruct Hd as (_ & Hp & _).
  destruct (dispatch _ _) as [[[] | e |] s2]; try exact Hp.
  rewrite IsBreakPoint_state.
  destruct (decide _), (writes_pc _); exact Hp.
Qed.

Lemma lookup_foldl_insert (l : list Z) (m : gmap Z Z) k :
  foldl (λ m k, <[k := 0]> m) m l !! k
  = if bool_decide (k ∈ l) then Some 0 else m !! k.
Proof.
  revert m. induction l as [| x l IH]; intros m; simpl; [reflexivity |].
  rewrite IH.
  destruct (bool_decide (k ∈ l)) eqn:E;
    destruct (bool_decide (k ∈ x :: l)) eqn:E'; try reflexivity.
  - apply bool_decide_eq_true in E. apply bool_decide_eq_false in E'.
    exfalso. apply E'. apply elem_of_cons. by right.
  - apply bool_decide_eq_false in E. apply bool_decide_eq_true in E'.
    apply elem_of_cons in E' as [-> | Hin]; [apply lookup_insert_eq | done].
  - apply bool_decide_eq_false in E'. apply lookup_insert_ne.
    intros ->. apply E'. apply elem_of_cons. by left.
Qed.

Local Abbreviation cycle_keys s :=
  (privilege_level s = Machine
   ∧ csrs s !! CSR_MCYCLE = None ∧ csrs s !! CSR_MCYCLEH = None
   ∧ csrs s !! CSR_CYCLE ≠ None ∧ csrs s !! CSR_CYCLEH ≠ None).

Lemma iteration_cycle_keys (s : VM) : cycle_keys s → cycle_keys (iteration s).2.
Proof.
  intros (Hp & Hm & Hmh & Hc & Hch).
  pose proof (iteration_same_csr_keys s) as Hk.
  split; [by rewrite iteration_same_privilege |].
  repeat split.
  - by apply Hk.
  - by apply Hk.
  - intros E. by apply Hk in E.
  - intros E. by apply Hk in E.
Qed.

Lemma Step_loop_cycle_keys steps (s : VM) :
  cycle_keys s → cycle_keys (Step_loop steps s).2.
Proof.
  revert s. induction steps as [| steps IH]; intros s Hs; [exact Hs |].
  cbn [Step_loop]. unfold bind, gets, ret. cbv beta iota.
  destruct (running s); [| exact Hs].
  pose proof (iteration_cycle_keys s Hs) as Hi.
  destruct (iteration s) as [[[] | e |] s1]; try exact Hi.
  by apply IH.
Qed.

(** What every reachable state has: Machine privilege, [cycle] and
    [cycleh] populated, [mcycle] and [mcycleh] not. *)
Lemma reachable_csrs (s : VM) : reachable s → cycle_keys s.
Proof.
  induction 1 as [memory env now starting_pc hart_id
                 | s Hs IH | s Hs IH | steps s Hs IH].
  - repeat split; vm_compute; congruence.
  - destruct IH as (Hp & Hm & Hmh & Hc & Hch).
    unfold Setup. cbn [privilege_level csrs with_cycles with_privilege_level
                         with_csrs with_fregs with_regs].
    rewrite !lookup_foldl_insert.
    repeat split; try assumption; vm_compute; congruence.
  - by apply iteration_cycle_keys.
  - unfold Step, bind, modify. cbv beta iota.
    by apply (Step_loop_cycle_keys (Z.to_nat steps) (with_ticks _ s)).
Qed.

(** C5.  In every reachable state [cycle] and [cycleh] read as the two
    halves of the cycle counter; [mcycle] and [mcycleh] are never
    populated, so reading them throws "Read Invalid CSR". *)
Theorem cycle_csrs_of_reachable_states (s : VM) :
  reachable s →
  ReadCSR CSR_CYCLE false s = (Done (wrap32 (cycles s)), s)
  ∧ ReadCSR CSR_CYCLEH false s = (Done (wrap32 (Z.shiftr (cycles s) 32)), s)
  ∧ ReadCSR CSR_MCYCLE false s = (Throw E_ReadInvalidCSR, s)
  ∧ ReadCSR CSR_MCYCLEH false s = (Throw E_ReadInvalidCSR, s).
Proof.
  intros (Hp & Hm & Hmh & Hc & Hch)%reachable_csrs.
  destruct (csrs s !! CSR_CYCLE) as [c |] eqn:Ec; [| done].
  destruct (csrs s !! CSR_CYCLEH) as [ch |] eqn:Ech; [| done].
  unfold ReadCSR, CSRPrivilegeCheck, bind, gets, ret, throw. cbv beta.
  rewrite Hp.
  repeat split;
    repeat first
      [ progress cbv beta iota
      | rewrite Ec | rewrite Ech | rewrite Hm | rewrite Hmh
      | lazymatch goal with
        | |- (if ?b then _ else _) _ = _ =>
            let v := eval vm_compute in b in change b with v
        end ].
    all: reflexivity.
Qed.

End CSRs.

Lemma cycle_csrs_of_reachable_states_witness :
  ReadCSR CSR_CYCLE false (Sample.start 0) = (Done 0, Sample.start 0)
  ∧ ReadCSR CSR_MCYCLE false (Sample.start 0)
    = (Throw E_ReadInvalidCSR, Sample.start 0).
Proof.
  destruct (cycle_csrs_of_reachable_states (Sample.start 0)) as (Hc & _ & Hm & _).
  - exact (reach_constructed (Sample.program 0) tt 0 0x1000 0).
  - split; [exact Hc | exact Hm].
Defined.

(** * Sv32 translation *)

Lemma bits_div_mod lo n x :
  0 ≤ lo → 0 ≤ n → bits lo n x = (x / 2 ^ lo) mod 2 ^ n.
Proof.
  intros Hlo Hn. unfold bits.
  rewrite Z.shiftr_div_pow2 by done.
  rewrite <- Z.land_ones by done. f_equal.
  rewrite Z.ones_equiv. lia.
Qed.

Lemma testbit_flag k x : 0 ≤ k → Z.testbit x k = pte_flag k x.
Proof.
  intros Hk. unfold pte_flag.
  rewrite <- (Z.testbit_spec' x k Hk).
  by destruct (Z.testbit x k).
Qed.

Lemma lor_high_low a b k :
  0 ≤ k → 0 ≤ b < 2 ^ k → Z.lor (a * 2 ^ k) b = a * 2 ^ k + b.
Proof.
  intros Hk Hb.
  rewrite <- Z.lxor_lor, <- Z.add_nocarry_lxor; try reflexivity.
  all: apply Z.bits_inj'; intros n Hn; rewrite Z.land_spec, Z.bits_0.
  all: destruct (Z.lt_ge_cases n k) as [Hlt | Hge].
  all: try (rewrite Z.mul_pow2_bits_low by lia; reflexivity).
  all: destruct (Z.eq_dec b 0) as [-> | Hb0];
    [by rewrite Z.bits_0, andb_false_r |].
  all: rewrite (Z.bits_above_log2 b n), andb_false_r; try lia.
  all: assert (Z.log2 b < k) by (apply Z.log2_lt_pow2; lia); lia.
Qed.

Section Translation.

Context {Memory FEnv : Type}.
Context `{!MemoryBus Memory} `{!HostFP FEnv} `{!Externals Memory}.

Local Abbreviation VM := (VM Memory FEnv).
Local Abbreviation M := (M Memory FEnv).

#[global] Instance unchanged_preorder :
  PreOrder (unchanged (Memory := Memory) (FEnv := FEnv)).
Proof.
  split; [intros s; reflexivity |].
  intros a b c H1 H2. unfold unchanged in *. congruence.
Qed.

Lemma TranslateMemoryAddress_unchanged address is_write :
  keeps unchanged (TranslateMemoryAddress address is_write : M Z).
Proof. walk fail fail. Qed.

Lemma superpage_address ppn1 vpn0 offset :
  0 ≤ vpn0 < 2 ^ 10 → 0 ≤ offset < 2 ^ 12 →
  Z.lor (Z.lor (wrap32 (Z.shiftl ppn1 22)) (Z.shiftl vpn0 12)) offset
  = (ppn1 * 2 ^ 22) mod 2 ^ 32 + vpn0 * 2 ^ 12 + offset.
Proof.
  intros Hv Ho. unfold wrap32. rewrite !Z.shiftl_mul_pow2 by lia.
  change (2 ^ 32) with (2 ^ 10 * 2 ^ 22).
  rewrite Z.mul_mod_distr_r by lia.
  rewrite (lor_high_low _ (vpn0 * 2 ^ 12) 22) by lia.
  replace (ppn1 mod 2 ^ 10 * 2 ^ 22 + vpn0 * 2 ^ 12)
    with ((ppn1 mod 2 ^ 10 * 2 ^ 10 + vpn0) * 2 ^ 12) by lia.
  rewrite lor_high_low by lia. lia.
Qed.

Lemma page_address ppn offset :
  0 ≤ offset < 2 ^ 12 →
  Z.lor (wrap32 (Z.shiftl ppn 12)) offset = (ppn * 2 ^ 12) mod 2 ^ 32 + offset.
Proof.
  intros Ho. unfold wrap32. rewrite Z.shiftl_mul_pow2 by lia.
  change (2 ^ 32) with (2 ^ 20 * 2 ^ 12).
  rewrite Z.mul_mod_distr_r by lia.
  by rewrite lor_high_low by lia.
Qed.

(** C8.  [TranslateMemoryAddress] does not change the state and walks the
    two levels as the specification words it: both PTE addresses and the
    physical address are taken in 32-bit arithmetic, every PTE comes from
    [PeekWord], an absent word is an access fault, every other refusal a
    page fault; CUST_TVA hands [rs1] to it with [is_write = false]. *)
Theorem sv32_translation (s : VM) satp va is_write :
  csrs s !! CSR_SATP = Some satp →
  let peek a := wrap32 <$> PeekWord a (memory s) in
  (TranslateMemoryAddress va is_write s).2 = s
  ∧ sv32_outcome (TranslateMemoryAddress va is_write s).1
    = Some (sv32_walk peek satp va is_write)
  ∧ ∀ instr, type instr = CUST_TVA →
      dispatch instr
      = (a <- reg (rs1 instr) ;;
         pa <- TranslateMemoryAddress a false ;;
         set_reg (rd instr) pa : M unit).
Proof.
  intros Hsatp peek.
  assert (0 ≤ va mod 2 ^ 12 < 2 ^ 12) as Hoff by (apply Z.mod_pos_bound; lia).
  assert (0 ≤ (va / 2 ^ 12) mod 2 ^ 10 < 2 ^ 10) as Hvpn0
    by (apply Z.mod_pos_bound; lia).
  split; [apply TranslateMemoryAddress_unchanged | split].
  2: { intros instr Ht. unfold dispatch. by rewrite Ht. }
  unfold TranslateMemoryAddress, ReadTLBEntry, bind, gets, ret, throw.
  cbv beta zeta. rewrite Hsatp. cbv beta iota.
  unfold sv32_walk, peek, pte_invalid, pte_leaf, leaf_denied,
         pte_V, pte_R, pte_W, pte_X, pte_A, pte_D, pte_ppn0, pte_ppn1, pte_ppn,
         TLBEntry.IsLeaf, TLBEntry.V, TLBEntry.R, TLBEntry.W, TLBEntry.X,
         TLBEntry.A, TLBEntry.D, TLBEntry.PPN_0, TLBEntry.PPN_1, TLBEntry.PPN,
         PAGE_SIZE.
  rewrite !(bits_div_mod _ _ va) by done.
  rewrite (Z.shiftl_mul_pow2 satp 12) by done.
  change (va / 2 ^ 0) with (va / 1); rewrite Z.div_1_r.
  change (wrap32 (wrap32 (satp * 2 ^ 12) + (va / 2 ^ 22) mod 2 ^ 10 * 4))
    with (((satp * 2 ^ 12) mod 2 ^ 32 + (va / 2 ^ 22) mod 2 ^ 10 * 4) mod 2 ^ 32).
  destruct (PeekWord _ (memory s)) as [raw1 |]; [| reflexivity].
  cbn [fmap option_fmap option_map].
  generalize (wrap32 raw1). clear raw1. intros pte1.
  rewrite <- !(testbit_flag _ pte1) by done.
  destruct (negb (Z.testbit pte1 0) || _); [reflexivity |].
  cbv beta iota.
  destruct (Z.testbit pte1 1 || Z.testbit pte1 2 || Z.testbit pte1 3);
    cbv beta iota.
  - rewrite (bits_div_mod 10 10 pte1) by done. cbn [andb].
    destruct (negb (_ =? 0)); [reflexivity |].
    destruct (negb (Z.testbit pte1 6) || _); [reflexivity |].
    cbn [fst sv32_outcome]. do 2 f_equal.
    rewrite (bits_div_mod 20 12 pte1) by done.
    by apply superpage_address.
  - rewrite (bits_div_mod 10 22 pte1) by done.
    change (wrap32 ((pte1 / 2 ^ 10) mod 2 ^ 22 * 4096
                    + (va / 2 ^ 12) mod 2 ^ 10 * 4))
      with (((pte1 / 2 ^ 10) mod 2 ^ 22 * 4096
             + (va / 2 ^ 12) mod 2 ^ 10 * 4) mod 2 ^ 32).
    destruct (PeekWord _ (memory s)) as [raw0 |]; [| reflexivity].
    cbn [fmap option_fmap option_map].
    generalize (wrap32 raw0). clear raw0. intros pte0.
    rewrite <- !(testbit_flag _ pte0) by done.
    destruct (negb (Z.testbit pte0 0) || _); [reflexivity |].
    cbv beta iota.
    destruct (Z.testbit pte0 1 || Z.testbit pte0 2 || Z.testbit pte0 3);
      cbn [negb]; cbv beta iota; [| reflexivity].
    cbn [andb].
    destruct (negb (Z.testbit pte0 6) || _); [reflexivity |].
    cbn [fst sv32_outcome]. do 2 f_equal.
    rewrite (bits_div_mod 10 22 pte0) by done.
    by apply page_address.
Qed.
End Translation.

Lemma sv32_translation_witness :
  sv32_outcome
    (TranslateMemoryAddress 0x400123 false (Sample.boot Sample.page_table 0)).1
  = Some (Physical 0x800123).
Proof.
  destruct (sv32_translation (Sample.boot Sample.page_table 0) 0 0x400123 false)
    as (_ & Hwalk & _).
  - reflexivity.
  - rewrite Hwalk. vm_compute. reflexivity.
Defined.

(** * The upper half of a float lane *)

Section NaNBoxing.

Context {Memory FEnv : Type}.
Context `{!MemoryBus Memory} `{!HostFP FEnv} `{!Externals Memory}.

Local Abbreviation VM := (VM Memory FEnv).
Local Abbreviation M := (M Memory FEnv).

Lemma upper32_bound v : 0 ≤ upper32 v < 2 ^ 32.
Proof.
  unfold upper32, wrap64. rewrite Z.shiftr_div_pow2 by done.
  pose proof (Z.mod_pos_bound (u64 v) (2 ^ 64) ltac:(done)) as Hb.
  split; [apply Z.div_pos; lia |].
  apply Z.div_lt_upper_bound; lia.
Qed.

Lemma upper32_set_u32 x v : upper32 (set_u32 x v) = upper32 v.
Proof.
  pose proof (upper32_bound v) as Hb.
  assert (0 ≤ wrap32 x < 2 ^ 32) as Hx by (apply Z.mod_pos_bound; done).
  unfold upper32 at 1, set_u32. cbn [u64].
  rewrite Z.shiftl_mul_pow2 by done.
  rewrite lor_high_low by done.
  unfold wrap64. rewrite Z.mod_small by lia.
  rewrite Z.shiftr_div_pow2 by done.
  rewrite Z.div_add_l by done. rewrite (Z.div_small (wrap32 x)) by done. lia.
Qed.

Lemma upper32_set_is_double b v : upper32 (set_is_double b v) = upper32 v.
Proof. reflexivity. Qed.

Lemma u32_set_u32 x v : u32 (set_u32 x v) = wrap32 x.
Proof.
  pose proof (upper32_bound v) as Hb.
  assert (0 ≤ wrap32 x < 2 ^ 32) as Hx by (apply Z.mod_pos_bound; done).
  unfold u32, set_u32. cbn [u64].
  rewrite Z.shiftl_mul_pow2 by done.
  rewrite lor_high_low by done.
  unfold wrap32 at 1. rewrite Z.add_comm, Z.mod_add by done.
  by apply Z.mod_small.
Qed.





End NaNBoxing.



Section NaNBoxing2.

Context {Memory FEnv : Type}.
Context `{!MemoryBus Memory} `{!HostFP FEnv} `{!Externals Memory}.

Local Abbreviation VM := (VM Memory FEnv).
Local Abbreviation M := (M Memory FEnv).




End NaNBoxing2.



(** * The step loop as a whole *)

Section StepLoop.

Context {Memory FEnv : Type}.
Context `{!MemoryBus Memory} `{!HostFP FEnv} `{!Externals Memory}.

Local Abbreviation VM := (VM Memory FEnv).
Local Abbreviation M := (M Memory FEnv).

Lemma iteration_counters (s : VM) :
  cycles (iteration s).2 = wrap64 (cycles s + 1)
  ∧ privilege_level (iteration s).2 = privilege_level s
  ∧ running (iteration s).2 = running s
  ∧ break_points (iteration s).2 = break_points s
  ∧ time (iteration s).2 = time s.
Proof.
  rewrite iteration_anatomy. cbv zeta.
  destruct (nonzero _); [by repeat split |].
  destruct (ReadWord _ _) as [word |]; [| by repeat split].
  pose proof (dispatch_same_counters (FromUInt32 word)
                (with_cycles (wrap64 (cycles s + 1)) s)) as Hd.
  destruct (dispatch _ _) as [[[] | e |] s2]; simpl in Hd; try exact Hd.
  rewrite IsBreakPoint_state.
  destruct (writes_pc _), (decide _); exact Hd.
Qed.

(** X1.  Every turn of the step loop, whatever its outcome (completed,
    thrown, undefined), adds exactly one to [cycles] in 64-bit arithmetic
    and leaves the privilege level, the running flag, the break points and
    the timer as they were. *)
Theorem turn_counts_one_cycle (s : VM) :
  cycles (iteration s).2 = wrap64 (cycles s + 1)
  ∧ privilege_level (iteration s).2 = privilege_level s
  ∧ running (iteration s).2 = running s
  ∧ break_points (iteration s).2 = break_points s
  ∧ time (iteration s).2 = time s.
Proof. apply iteration_counters. Qed.



Lemma iteration_result (s : VM) b s' :
  iteration s = (Done b, s') → IsBreakPoint (pc s') s' = (Done b, s').
Proof.
  rewrite iteration_anatomy. cbv zeta.
  destruct (nonzero _); [discriminate |].
  destruct (ReadWord _ _) as [word |]; [| discriminate].
  destruct (dispatch _ _) as [[[] | e |] s2]; try discriminate.
  intros E. destruct (IsBreakPoint_done _ _ _ _ E) as [-> _]. exact E.
Qed.

Lemma Step_loop_true n (s s' : VM) :
  Step_loop n s = (Done true, s') → IsBreakPoint (pc s') s' = (Done true, s').
Proof.
  revert s. induction n as [| n IH]; intros s; [discriminate |].
  simpl. unfold bind at 1. unfold gets at 1. simpl.
  destruct (running s); [| discriminate].
  unfold bind. destruct (iteration s) as [[[] | e |] s1] eqn:E; try discriminate.
  - intros [= <-]. by apply iteration_result in E.
  - apply IH.
Qed.

(** X3.  [Step] returns [true] only where [IsBreakPoint] holds of the
    [pc] it stopped at: the address is in the break-point set or the word
    there decodes to EBREAK. *)
Theorem Step_true_stops_at_a_break_point steps (s s' : VM) :
  Step steps s = (Done true, s') → IsBreakPoint (pc s') s' = (Done true, s').
Proof. unfold Step, bind, modify. simpl. apply Step_loop_true. Qed.

Lemma Step_loop_false n (s s' : VM) :
  running s = true →
  Step_loop (S n) s = (Done false, s') →
  cycles s' = wrap64 (cycles s + Z.of_nat (S n)).
Proof.
  revert s. induction n as [| n IH]; intros s Hr.
  - simpl. unfold bind, gets. simpl. rewrite Hr.
    pose proof (iteration_counters s) as (Hc & _).
    destruct (iteration s) as [[[] | e |] s1]; try discriminate.
    intros [= <-]. exact Hc.
  - change (Step_loop (S (S n)) s) with
      (bind (gets running) (λ go : bool, if go then
         bind iteration (λ hit : bool, if hit then ret true else Step_loop (S n))
       else ret false) s).
    unfold bind at 1. unfold gets at 1. simpl fst. simpl snd. cbv beta iota.
    rewrite Hr. unfold bind at 1.
    pose proof (iteration_counters s) as (Hc & _ & Hrun & _).
    destruct (iteration s) as [[[] | e |] s1]; try discriminate.
    simpl in Hc, Hrun. intros E. apply IH in E; [| congruence].
    rewrite E, Hc. unfold wrap64. rewrite Zplus_mod_idemp_l.
    f_equal. lia.
Qed.

(** X4.  When [Step] on a running hart returns [false] it has taken all
    of its [steps] turns: [cycles] has advanced by [steps] (in 64-bit
    arithmetic); no turn threw and none ended on a break point. *)
Theorem Step_false_ran_every_turn steps (s s' : VM) :
  running s = true → 0 < steps →
  Step steps s = (Done false, s') →
  cycles s' = wrap64 (cycles s + steps).
Proof.
  intros Hr Hs. unfold Step, bind, modify. simpl.
  destruct (Z.to_nat steps) as [| n] eqn:En; [lia |].
  intros E. apply Step_loop_false in E; [| exact Hr].
  rewrite E. simpl cycles. f_equal. lia.
Qed.

End StepLoop.


Lemma Step_true_stops_at_a_break_point_witness :
  IsBreakPoint (pc (Step 1 Examples.before_ebreak).2)
               (Step 1 Examples.before_ebreak).2
  = (Done true, (Step 1 Examples.before_ebreak).2).
Proof.
  apply (Step_true_stops_at_a_break_point 1 Examples.before_ebreak).
  vm_compute. reflexivity.
Defined.

Lemma Step_false_ran_every_turn_witness :
  cycles (Step 1 Examples.running_addi).2
  = wrap64 (cycles Examples.running_addi + 1).
Proof.
  apply (Step_false_ran_every_turn 1 Examples.running_addi).
  - reflexivity.
  - reflexivity.
  - vm_compute. reflexivity.
Defined.

(** * What an instruction leaves alone *)

Section Frames.

Context {Memory FEnv : Type}.
Context `{!MemoryBus Memory} `{!HostFP FEnv} `{!Externals Memory}.

Local Abbreviation VM := (VM Memory FEnv).
Local Abbreviation M := (M Memory FEnv).

#[global] Instance same_memory_preorder :
  PreOrder (same_memory (Memory := Memory) (FEnv := FEnv)).
Proof.
  split; [intros s; reflexivity |].
  intros a b c H1 H2. unfold same_memory in *. congruence.
Qed.

#[global] Instance same_reg_preorder r :
  PreOrder (same_reg (Memory := Memory) (FEnv := FEnv) r).
Proof.
  split; [intros s; reflexivity |].
  intros a b c H1 H2. unfold same_reg in *. congruence.
Qed.

#[global] Instance same_freg_preorder r :
  PreOrder (same_freg (Memory := Memory) (FEnv := FEnv) r).
Proof.
  split; [intros s; reflexivity |].
  intros a b c H1 H2. unfold same_freg in *. congruence.
Qed.

#[global] Instance same_csr_values_preorder :
  PreOrder (same_csr_values (Memory := Memory) (FEnv := FEnv)).
Proof.
  split; [intros s k _ _; reflexivity |].
  intros a b c H1 H2 k Hf Hh. by rewrite H2, H1.
Qed.

(** X5.  Only the stores, the atomics (LR.W and SC.W among them) and
    ECALL change the bus: every other instruction, loads and
    floating-point loads included, leaves [memory] as it was, whatever
    its outcome. *)
Theorem only_stores_change_memory instr (s : VM) :
  touches_memory (type instr) = false →
  memory (dispatch instr s).2 = memory s.
Proof.
  intros Hw. revert s. change (keeps same_memory (dispatch instr)).
  unfold dispatch.
  destruct (type instr) eqn:Ht; try discriminate Hw.
  all: walk fail ltac:(reflexivity).
Qed.

Lemma same_reg_set_reg (r r' : lane) v (s : VM) :
  r ≠ r' → same_reg r s (with_regs (vinsert r' v (regs s)) s).
Proof. intros Hr. unfold same_reg. simpl. by rewrite vlookup_insert_ne. Qed.

(** X6.  An instruction other than ECALL changes no integer register
    but [rd]: every other lane of [regs] holds what it held, whatever the
    outcome. *)
Theorem only_rd_is_written instr (r : lane) (s : VM) :
  type instr ≠ ECALL → r ≠ rd instr →
  regs (dispatch instr s).2 !!! r = regs s !!! r.
Proof.
  intros Hty Hrd. revert s. change (keeps (same_reg r) (dispatch instr)).
  unfold dispatch.
  destruct (type instr) eqn:Ht; try congruence.
  all: walk fail ltac:(first [by apply same_reg_set_reg | reflexivity]).
Qed.

Lemma same_freg_set_freg (r r' : lane) v (s : VM) :
  r ≠ r' → same_freg r s (with_fregs (vinsert r' v (fregs s)) s).
Proof. intros Hr. unfold same_freg. simpl. by rewrite vlookup_insert_ne. Qed.

(** X7.  An instruction other than ECALL changes no float lane but
    [rd]: every other lane of [fregs] holds what it held, whatever the
    outcome. *)
Theorem only_float_rd_is_written instr (r : lane) (s : VM) :
  type instr ≠ ECALL → r ≠ rd instr →
  fregs (dispatch instr s).2 !!! r = fregs s !!! r.
Proof.
  intros Hty Hrd. revert s. change (keeps (same_freg r) (dispatch instr)).
  unfold dispatch.
  destruct (type instr) eqn:Ht; try congruence.
  all: walk fail ltac:(first [by apply same_freg_set_freg | reflexivity]).
Qed.

Lemma same_csr_values_insert k v (s : VM) :
  k = CSR_FCSR ∨ k = CSR_MHARTID →
  same_csr_values s (with_csrs (<[k := v]> (csrs s)) s).
Proof.
  intros Hk k' Hf Hh. simpl. apply lookup_insert_ne. destruct Hk; congruence.
Qed.

(** X8.  Outside the six CSR instructions no instruction changes a CSR
    other than [fcsr] (the floating-point flags) and [mhartid] (which
    LR.W, SC.W and ECALL read through [operator[]]): every other entry of
    the CSR file is as it was, present or absent. *)
Theorem only_csr_instructions_write_csrs instr (s : VM) k :
  is_csr_op (type instr) = false → k ≠ CSR_FCSR → k ≠ CSR_MHARTID →
  csrs (dispatch instr s).2 !! k = csrs s !! k.
Proof.
  intros Hty Hf Hh. revert k Hf Hh. revert s.
  change (keeps same_csr_values (dispatch instr)).
  unfold dispatch.
  destruct (type instr) eqn:Ht; try discriminate Hty.
  all: walk fail ltac:(first [apply same_csr_values_insert; by auto
                             | intros ? ? ?; reflexivity]).
Qed.

End Frames.

Lemma only_stores_change_memory_witness :
  memory (dispatch Sample.FMV_W_X_1_2 Sample.nan_lanes).2
  = memory Sample.nan_lanes.
Proof.
  apply (only_stores_change_memory Sample.FMV_W_X_1_2 Sample.nan_lanes).
  reflexivity.
Defined.

Lemma only_rd_is_written_witness :
  regs (dispatch (Examples.r_type ADD) Examples.sevens).2 !!! 2%fin
  = regs Examples.sevens !!! 2%fin.
Proof.
  apply (only_rd_is_written (Examples.r_type ADD) 2%fin Examples.sevens).
  - discriminate.
  - discriminate.
Defined.

Lemma only_float_rd_is_written_witness :
  fregs (dispatch Sample.FMV_W_X_1_2 Sample.nan_lanes).2 !!! 2%fin
  = fregs Sample.nan_lanes !!! 2%fin.
Proof.
  apply (only_float_rd_is_written Sample.FMV_W_X_1_2 2%fin Sample.nan_lanes).
  - discriminate.
  - discriminate.
Defined.

Lemma only_csr_instructions_write_csrs_witness :
  csrs (dispatch Sample.FMIN_S_1_2_2 Sample.nan_lanes).2 !! CSR_SATP
  = csrs Sample.nan_lanes !! CSR_SATP.
Proof.
  apply (only_csr_instructions_write_csrs Sample.FMIN_S_1_2_2 Sample.nan_lanes).
  - reflexivity.
  - discriminate.
  - discriminate.
Defined.

(** * The CSR file *)

Section CSRFile.

Context {Memory FEnv : Type}.
Context `{!MemoryBus Memory} `{!HostFP FEnv} `{!Externals Memory}.

Local Abbreviation VM := (VM Memory FEnv).
Local Abbreviation M := (M Memory FEnv).

Lemma with_csrs_same (s : VM) : with_csrs (csrs s) s = s.
Proof. by destruct s. Qed.

Lemma ReadCSR_state csr is_internal_read (s : VM) :
  (ReadCSR csr is_internal_read s).2 = s.
Proof.
  revert s. change (keeps unchanged (ReadCSR csr is_internal_read : M Z)).
  walk fail ltac:(reflexivity).
Qed.

(** X9.  [ReadCSR] changes nothing, whether it returns or throws; in
    particular a read of a missing CSR does not insert it. *)
Theorem ReadCSR_changes_nothing csr is_internal_read (s : VM) :
  (ReadCSR csr is_internal_read s).2 = s.
Proof. apply ReadCSR_state. Qed.

(** X10.  [WriteCSR] changes at most the entry of the CSR file it is
    called on: the state it leaves differs from the old one in [csrs]
    only, every other key is as it was, and nothing at all has changed
    when it throws or when the CSR is one of the read-only ones, whose
    writes are dropped without a fault. *)
Theorem WriteCSR_changes_one_entry csr value (s : VM) :
  let r := WriteCSR csr value s in
  r.2 = with_csrs (csrs r.2) s
  ∧ (∀ k, k ≠ csr → csrs r.2 !! k = csrs s !! k)
  ∧ (∀ e, r.1 = Throw e → r.2 = s)
  ∧ (read_only_csr csr = true → r.2 = s).
Proof.
  unfold WriteCSR, bind, CSRPrivilegeCheck, gets, throw, ret, csrs_assign, modify.
  cbv zeta. cbn [fst snd]. fold (read_only_csr csr).
  destruct (negb _); cbn [fst snd].
  { by rewrite with_csrs_same. }
  destruct (csrs s !! csr) as [stored |]; cbn [fst snd].
  2: { by rewrite with_csrs_same. }
  destruct (read_only_csr csr); cbn [fst snd].
  { by rewrite with_csrs_same. }
  repeat split; try discriminate.
  intros k Hk. simpl. by apply lookup_insert_ne.
Qed.

(** X11.  A completed [WriteCSR] to a CSR that is neither read-only nor
    answered from a counter nor a performance-monitor CSR is read back by
    [ReadCSR]: the value returned is the value written, as a 32-bit
    number. *)
Theorem written_csr_reads_back csr value (s s' : VM) :
  WriteCSR csr value s = (Done tt, s') →
  read_only_csr csr = false → hpm_csr csr = false → counter_csr csr = false →
  ReadCSR csr false s' = (Done (wrap32 value), s').
Proof.
  intros Hw Hro Hh Hc. revert Hw.
  unfold hpm_csr in Hh. unfold counter_csr in Hc.
  repeat (apply orb_false_iff in Hh as [Hh ?]).
  repeat (apply orb_false_iff in Hc as [Hc ?]).
  unfold WriteCSR, ReadCSR, bind, CSRPrivilegeCheck, gets, throw, ret,
    csrs_assign, modify.
  cbn [fst snd]. fold (read_only_csr csr). rewrite Hro.
  destruct (negb _) eqn:Ha; [discriminate |].
  destruct (csrs s !! csr) as [stored |]; [| discriminate].
  intros [= <-]. cbn [privilege_level with_csrs csrs].
  rewrite Ha. cbn [negb andb csrs with_csrs].
  rewrite lookup_insert_eq, Hh, H0, H, Hc, H5, H4, H3, H2, H1.
  reflexivity.
Qed.

(** X12.  The internal read differs from the external one in the
    privilege check alone: whatever the external read returns the internal
    one returns too, the internal one never throws the privilege fault,
    and at Machine privilege the two are the same function. *)
Theorem internal_read_skips_only_the_privilege_check csr (s : VM) :
  (∀ v s', ReadCSR csr false s = (Done v, s') → ReadCSR csr true s = (Done v, s'))
  ∧ ReadCSR csr true s ≠ (Throw E_CSRReadPrivilege, s)
  ∧ (privilege_level s = Machine → ReadCSR csr false s = ReadCSR csr true s).
Proof.
  unfold ReadCSR, bind, CSRPrivilegeCheck, gets, throw, ret. cbn [fst snd negb andb].
  repeat split.
  - intros v s'. destruct (negb _); [discriminate | done].
  - destruct (csrs s !! csr); [| discriminate].
    repeat match goal with |- context [if ?c then _ else _] => destruct c end;
      discriminate.
  - intros ->. destruct ((csr <? 4) || _); [reflexivity |].
    destruct (_ || (csr =? CSR_SCONTEXT)); reflexivity.
Qed.

Lemma ReadCSR_done csr b (s : VM) v s' :
  ReadCSR csr b s = (Done v, s') →
  s' = s ∧ csrs s !! csr ≠ None
  ∧ (b = false → CSRPrivilegeCheck csr s = (Done true, s)).
Proof.
  unfold ReadCSR, bind, CSRPrivilegeCheck, gets, throw, ret. cbn [fst snd].
  match goal with
  | |- context [negb b && negb ?c] => generalize c; intros allowed
  end.
  destruct b, allowed; cbn [negb andb]; try discriminate.
  all: destruct (csrs s !! csr); [| discriminate].
  all: intros E; split; [| split; [done | done]].
  all: revert E;
    repeat match goal with |- context [if ?c then _ else _] => destruct c end;
    by intros [= _ <-].
Qed.

Lemma WriteCSR_done csr value (s : VM) :
  CSRPrivilegeCheck csr s = (Done true, s) → csrs s !! csr ≠ None →
  ∃ s', WriteCSR csr value s = (Done tt, s').
Proof.
  intros Hp Hc. unfold WriteCSR, bind. rewrite Hp. cbn [negb].
  unfold gets at 1. destruct (csrs s !! csr); [| done].
  destruct (_ || _); eexists; reflexivity.
Qed.

Lemma ReadCSR_internal_done csr (s : VM) :
  csrs s !! csr ≠ None → ∃ v, ReadCSR csr true s = (Done v, s).
Proof.
  intros Hc. unfold ReadCSR, bind, CSRPrivilegeCheck, gets, ret.
  cbn [fst snd negb andb]. destruct (csrs s !! csr); [| done].
  repeat match goal with |- context [if ?c then _ else _] => destruct c end;
    eexists; reflexivity.
Qed.

(** X13.  [ReadCSR] (external) and [WriteCSR] fault on the same CSRs in
    the same states: the read returns exactly when the write returns.  So
    a write to a read-only CSR that can be read never faults. *)
Theorem read_and_write_fault_alike csr value (s : VM) :
  (∃ v, (ReadCSR csr false s).1 = Done v) ↔ (WriteCSR csr value s).1 = Done tt.
Proof.
  split.
  - intros [v E].
    destruct (ReadCSR csr false s) as [r s1] eqn:Er. simpl in E. subst r.
    destruct (ReadCSR_done _ _ _ _ _ Er) as (_ & Hc & Hp).
    destruct (WriteCSR_done csr value s (Hp eq_refl) Hc) as [s' ->]. reflexivity.
  - unfold WriteCSR, ReadCSR, bind, CSRPrivilegeCheck, gets, throw, ret.
    cbn [fst snd negb andb].
    destruct (negb _); [discriminate |].
    destruct (csrs s !! csr); [| discriminate]. intros _.
    repeat match goal with |- context [if ?c then _ else _] => destruct c end;
      eexists; reflexivity.
Qed.

(** X14.  [GetCSRSnapshot] shows for every CSR outside the
    performance-monitor ranges the value an internal [ReadCSR] returns in
    the same state. *)
Theorem snapshot_agrees_with_ReadCSR csr v (s s' : VM) :
  hpm_csr csr = false →
  ReadCSR csr true s = (Done v, s') →
  GetCSRSnapshot s !! csr = Some v.
Proof.
  intros Hh. unfold hpm_csr in Hh.
  repeat (apply orb_false_iff in Hh as [Hh ?]).
  unfold ReadCSR, bind, CSRPrivilegeCheck, gets, throw, ret, GetCSRSnapshot.
  cbn [fst snd negb andb]. cbv zeta.
  destruct (csrs s !! csr) as [stored |] eqn:Hs; [| discriminate].
  rewrite Hh, H0, H.
  destruct (Z.eqb_spec csr CSR_MCYCLE) as [-> | N1]; cbn [orb].
  { intros [= <- _]. rewrite !lookup_insert_ne by (vm_compute; discriminate).
    by rewrite lookup_insert_eq. }
  destruct (Z.eqb_spec csr CSR_CYCLE) as [-> | N2].
  { intros [= <- _]. rewrite !lookup_insert_ne by (vm_compute; discriminate).
    by rewrite lookup_insert_eq. }
  destruct (Z.eqb_spec csr CSR_MCYCLEH) as [-> | N3]; cbn [orb].
  { intros [= <- _]. rewrite !lookup_insert_ne by (vm_compute; discriminate).
    by rewrite lookup_insert_eq. }
  destruct (Z.eqb_spec csr CSR_CYCLEH) as [-> | N4].
  { intros [= <- _]. rewrite !lookup_insert_ne by (vm_compute; discriminate).
    by rewrite lookup_insert_eq. }
  destruct (Z.eqb_spec csr CSR_TIME) as [-> | N5].
  { intros [= <- _]. rewrite !lookup_insert_ne by (vm_compute; discriminate).
    by rewrite lookup_insert_eq. }
  destruct (Z.eqb_spec csr CSR_TIMEH) as [-> | N6].
  { intros [= <- _]. by rewrite lookup_insert_eq. }
  intros [= <- _]. by rewrite !lookup_insert_ne by congruence.
Qed.

Lemma wrap32_wrap64 x : wrap32 (wrap64 x) = wrap32 x.
Proof.
  unfold wrap32, wrap64. apply Z.mod_mod_divide.
  exists (2 ^ 32). reflexivity.
Qed.

Lemma ReadCSR_cycle (s : VM) stored :
  csrs s !! CSR_CYCLE = Some stored →
  ReadCSR CSR_CYCLE false s = (Done (wrap32 (cycles s)), s).
Proof.
  intros Ec. unfold ReadCSR, CSRPrivilegeCheck, bind, gets, ret, throw.
  cbv beta.
  repeat first
    [ progress cbv beta iota
    | rewrite Ec
    | lazymatch goal with
      | |- (if ?b then _ else _) _ = _ =>
          let v := eval vm_compute in b in change b with v
      end ].
  reflexivity.
Qed.

(** X15.  The cycle counter an instruction reads already counts that
    instruction: a completed turn on a reachable hart whose instruction is
    [csrrs rd, cycle, x0] leaves in [rd] the old [cycles] plus one, as a
    32-bit number. *)
Theorem rdcycle_counts_its_own_turn (s : VM) word b s' :
  reachable s →
  ReadWord (wrap32 (pc s)) (memory s) = Some word →
  type (FromUInt32 word) = CSRRS →
  immediate (FromUInt32 word) = CSR_CYCLE →
  rs1 (FromUInt32 word) = REG_ZERO →
  rd (FromUInt32 word) ≠ REG_ZERO →
  iteration s = (Done b, s') →
  regs s' !!! rd (FromUInt32 word) = wrap32 (cycles s + 1).
Proof.
  intros Hreach Hread Hty Himm Hrs1 Hrd.
  destruct (reachable_csrs s Hreach) as (_ & _ & _ & Hc & _).
  rewrite iteration_anatomy. cbv zeta.
  destruct (nonzero _); [discriminate |].
  rewrite Hread.
  set (s1 := with_cycles (wrap64 (cycles s + 1)) s).
  assert (Hd : dispatch (FromUInt32 word) s1
               = (Done tt, with_regs (vinsert (rd (FromUInt32 word))
                                        (wrap32 (wrap32 (cycles s1))) (regs s1)) s1)).
  { unfold dispatch. rewrite Hty.
    unfold exec_csr_reg. rewrite Himm, Hrs1.
    destruct (decide (rd (FromUInt32 word) = REG_ZERO)) as [| _]; [done |].
    destruct (decide (REG_ZERO = REG_ZERO)) as [_ |]; [| done].
    destruct (csrs s !! CSR_CYCLE) as [stored |] eqn:Ec; [| done].
    unfold bind at 1. unfold reg at 1, gets at 1. cbv beta iota.
    unfold bind at 1. unfold bind at 1.
    rewrite (ReadCSR_cycle s1 stored Ec). reflexivity. }
  rewrite Hd. rewrite Hty. cbn [writes_pc].
  destruct (decide (rd (FromUInt32 word) = 0%fin)) as [| _]; [done |].
  intros E. destruct (IsBreakPoint_done _ _ _ _ E) as [-> _].
  cbn [regs with_pc with_regs]. rewrite vlookup_insert.
  subst s1. cbn [cycles with_cycles]. rewrite wrap32_wrap64.
  unfold wrap32. by apply Z.mod_mod.
Qed.

End CSRFile.

Lemma written_csr_reads_back_witness :
  ReadCSR CSR_SATP false (WriteCSR CSR_SATP 5 (Sample.start 0)).2
  = (Done (wrap32 5), (WriteCSR CSR_SATP 5 (Sample.start 0)).2).
Proof.
  apply (written_csr_reads_back CSR_SATP 5 (Sample.start 0)).
  - vm_compute. reflexivity.
  - reflexivity.
  - reflexivity.
  - reflexivity.
Defined.

Lemma snapshot_agrees_with_ReadCSR_witness :
  GetCSRSnapshot (Sample.start 0) !! CSR_CYCLE = Some 0.
Proof.
  apply (snapshot_agrees_with_ReadCSR CSR_CYCLE 0 (Sample.start 0)
           (Sample.start 0)).
  - reflexivity.
  - vm_compute. reflexivity.
Defined.

Lemma rdcycle_counts_its_own_turn_witness :
  regs (iteration (Externals0 := Examples.rdcycle_only)
          Examples.rdcycle_start).2 !!! 5%fin
  = wrap32 (cycles Examples.rdcycle_start + 1).
Proof.
  apply (rdcycle_counts_its_own_turn (Externals0 := Examples.rdcycle_only)
           Examples.rdcycle_start 0 false).
  - exact (reach_constructed (Externals0 := Examples.rdcycle_only)
             (Sample.program 0) tt 0 0x1000 0).
  - reflexivity.
  - reflexivity.
  - reflexivity.
  - reflexivity.
  - discriminate.
  - vm_compute. reflexivity.
Defined.

(** * Faults are precise *)

Section PreciseRules.

Context {Memory FEnv : Type} `{!MemoryBus Memory} `{!HostFP FEnv}.
Context (R : relation (VM Memory FEnv)) `{!PreOrder R}.

Local Abbreviation VM := (VM Memory FEnv).
Local Abbreviation M := (M Memory FEnv).

Lemma throws_keep_of_keeps {A} (m : M A) : keeps R m → throws_keep R m.
Proof. intros Hk s e s' E. specialize (Hk s). by rewrite E in Hk. Qed.

Lemma throws_keep_of_never {A} (m : M A) : never_throws m → throws_keep R m.
Proof. intros Hn s e s' E. by destruct (Hn s e s'). Qed.

(** A first action that keeps [R] may be followed by anything whose
    throws keep [R]. *)
Lemma throws_keep_bind_quiet {A B} (m : M A) (k : A → M B) :
  keeps R m → (∀ a, throws_keep R (k a)) → throws_keep R (bind m k).
Proof.
  intros Hm Hk s e s'. unfold bind. specialize (Hm s).
  destruct (m s) as [[a | e1 |] s1]; simpl in Hm.
  - intros E. etransitivity; [exact Hm | by eapply Hk].
  - by intros [= _ <-].
  - discriminate.
Qed.

(** A first action that changes [R] must be followed by actions that do
    not throw. *)
Lemma throws_keep_bind_last {A B} (m : M A) (k : A → M B) :
  throws_keep R m → (∀ a, never_throws (k a)) → throws_keep R (bind m k).
Proof.
  intros Hm Hk s e s'. unfold bind.
  destruct (m s) as [[a | e1 |] s1] eqn:E.
  - intros E'. by destruct (Hk a s1 e s').
  - intros [= <- <-]. by eapply Hm.
  - discriminate.
Qed.

Lemma never_throws_bind {A B} (m : M A) (k : A → M B) :
  never_throws m → (∀ a, never_throws (k a)) → never_throws (bind m k).
Proof.
  intros Hm Hk s e s'. unfold bind.
  destruct (m s) as [[a | e1 |] s1] eqn:E.
  - apply Hk.
  - by destruct (Hm s e1 s1).
  - discriminate.
Qed.

Lemma never_throws_ret {A} (a : A) : never_throws (ret a : M A).
Proof. intros s e s'. discriminate. Qed.

Lemma never_throws_undefined {A} : never_throws (undefined : M A).
Proof. intros s e s'. discriminate. Qed.

Lemma never_throws_gets {A} (f : VM → A) : never_throws (gets f).
Proof. intros s e s'. discriminate. Qed.

Lemma never_throws_modify (f : VM → VM) : never_throws (modify f).
Proof. intros s e s'. discriminate. Qed.

Lemma never_throws_csrs_index k : never_throws (csrs_index k : M Z).
Proof. intros s e s'. unfold csrs_index. destruct (csrs s !! k); discriminate. Qed.

Lemma never_throws_host x args : never_throws (host x args : M Z).
Proof.
  intros s e s'. unfold host. destruct (host_eval _ _ _). discriminate.
Qed.

End PreciseRules.

Ltac nt_step :=
  lazymatch goal with
  | |- never_throws (bind _ _) => apply never_throws_bind; [| intros ?]
  | |- never_throws (ret _) => apply never_throws_ret
  | |- never_throws undefined => apply never_throws_undefined
  | |- never_throws (gets _) => apply never_throws_gets
  | |- never_throws (modify _) => apply never_throws_modify
  | |- never_throws (csrs_index _) => apply never_throws_csrs_index
  | |- never_throws (host _ _) => apply never_throws_host
  | |- never_throws (throw _) => fail
  | |- never_throws (bus_read _ _) => fail
  | |- never_throws (bus_write _ _ _) => fail
  | |- never_throws (bus_atomic _) => fail
  | |- never_throws (call_handler _ _) => fail
  | |- never_throws (match ?x with _ => _ end) => destruct x
  | |- never_throws (let _ := _ in _) => cbv zeta
  | |- never_throws ?m => let h := head_of m in unfold h
  end.

Ltac nt := repeat nt_step.

(** A field update that is not one of the register files or [pc]. *)
Ltac registers_leaf :=
  idtac; cbv beta;
  lazymatch goal with
  | |- _ _ (with_regs _ _) => fail
  | |- _ _ (with_fregs _ _) => fail
  | |- _ _ (with_pc _ _) => fail
  | |- _ => by repeat split
  end.

(** Walks a member function whose writes to the register files come after
    its last throw. *)
Ltac tk_step special :=
  first
    [ special
    | lazymatch goal with
      | |- throws_keep _ (bind _ _) =>
          first [ apply throws_keep_bind_quiet;
                    [tc_solve | solve [walk fail registers_leaf] | intros ?]
                | apply throws_keep_bind_last; [| intros ?; solve [nt]] ]
      | |- throws_keep _ (throw _) =>
          apply throws_keep_of_keeps; apply keeps_throw; tc_solve
      | |- throws_keep _ (match ?x with _ => _ end) => destruct x
      | |- throws_keep _ (let _ := _ in _) => cbv zeta
      | |- throws_keep _ ?m =>
          first [ apply throws_keep_of_never; solve [nt]
                | apply throws_keep_of_keeps; solve [walk fail registers_leaf]
                | let h := head_of m in unfold h ]
      end ].

Ltac tk special := repeat tk_step special.

Section Precise.

Context {Memory FEnv : Type}.
Context `{!MemoryBus Memory} `{!HostFP FEnv} `{!Externals Memory}.

Local Abbreviation VM := (VM Memory FEnv).
Local Abbreviation M := (M Memory FEnv).

#[global] Instance same_registers_preorder :
  PreOrder (same_registers (Memory := Memory) (FEnv := FEnv)).
Proof.
  split; [intros s; by repeat split |].
  intros a b c H1 H2. unfold same_registers in *. intuition congruence.
Qed.

Lemma CSRPrivilegeCheck_with_regs csr x (s : VM) :
  CSRPrivilegeCheck csr s = (Done true, s) →
  CSRPrivilegeCheck csr (with_regs x s) = (Done true, with_regs x s).
Proof.
  unfold CSRPrivilegeCheck, gets. cbn [privilege_level with_regs].
  intros [= ->]. reflexivity.
Qed.

Lemma ReadCSR_same_registers csr b :
  keeps same_registers (ReadCSR csr b : M Z).
Proof. walk fail registers_leaf. Qed.

(** The read-into-[rd] step of a CSR instruction, followed by [tail]:
    once the read has passed the privilege and presence checks and [rd] is
    written, [tail] meets the same checks and does not throw. *)
Lemma csr_read_then_same_registers (instr : RVInstruction) (tail : M unit) :
  keeps same_registers tail →
  (∀ (s : VM) x e s',
     CSRPrivilegeCheck (immediate instr) s = (Done true, s) →
     csrs s !! immediate instr ≠ None →
     tail (with_regs x s) ≠ (Throw e, s')) →
  throws_keep same_registers
    ((if decide (rd instr = REG_ZERO) then ret tt
      else old <- ReadCSR (immediate instr) false ;; set_reg (rd instr) old) ;;
     tail).
Proof.
  intros Hq Hn s e s'. unfold bind at 1.
  destruct (decide _) as [Hz | Hz].
  - unfold ret. intros E. specialize (Hq s). by rewrite E in Hq.
  - unfold bind at 1.
    destruct (ReadCSR (immediate instr) false s) as [[old | e1 |] s1] eqn:Er.
    + destruct (ReadCSR_done _ _ _ _ _ Er) as (-> & Hc & Hp).
      unfold set_reg, modify. intros E. by apply Hn in E; auto.
    + intros [= <- <-].
      pose proof (ReadCSR_same_registers (immediate instr) false s) as H.
      by rewrite Er in H.
    + discriminate.
Qed.

Lemma WriteCSR_after_read csr value (s : VM) x e s' :
  CSRPrivilegeCheck csr s = (Done true, s) → csrs s !! csr ≠ None →
  WriteCSR csr value (with_regs x s) ≠ (Throw e, s').
Proof.
  intros Hp Hc.
  destruct (WriteCSR_done csr value (with_regs x s)) as [s1 E];
    [by apply CSRPrivilegeCheck_with_regs | done |].
  by rewrite E.
Qed.

Lemma update_after_read csr (f : Z → Z) (s : VM) x e s' :
  CSRPrivilegeCheck csr s = (Done true, s) → csrs s !! csr ≠ None →
  (cur <- ReadCSR csr true ;; WriteCSR csr (f cur)) (with_regs x s)
  ≠ (Throw e, s').
Proof.
  intros Hp Hc. unfold bind.
  destruct (ReadCSR_internal_done csr (with_regs x s)) as [v ->]; [done |].
  by apply WriteCSR_after_read.
Qed.

Ltac csr_special :=
  idtac;
  lazymatch goal with
  | |- throws_keep _ (bind (if decide (_ = REG_ZERO) then _ else _) _) =>
      apply csr_read_then_same_registers;
      [ solve [walk fail registers_leaf]
      | intros; first [ by apply WriteCSR_after_read
                      | by apply update_after_read
                      | destruct (decide _);
                          [discriminate | by apply update_after_read] ] ]
  end.

(** In every case of the first [switch] but ECALL the writes to the
    register files and [pc] come after the last possible throw. *)
Lemma dispatch_throws_keep_registers instr :
  type instr ≠ ECALL → throws_keep same_registers (dispatch instr : M unit).
Proof.
  intros Hty. unfold dispatch.
  destruct (type instr) eqn:Ht; try congruence.
  all: tk csr_special.
Qed.

(** X16.  A turn that throws leaves the integer registers, the float
    lanes and [pc] exactly as they were, unless its instruction is an
    ECALL (whose handler is handed both register files).  The bus, the
    CSR file and the host rounding mode may have changed before the
    throw. *)
Theorem faults_are_precise (s : VM) e s' :
  (∀ word, ReadWord (wrap32 (pc s)) (memory s) = Some word →
           type (FromUInt32 word) ≠ ECALL) →
  iteration s = (Throw e, s') →
  regs s' = regs s ∧ fregs s' = fregs s ∧ pc s' = pc s.
Proof.
  intros Hty. rewrite iteration_anatomy. cbv zeta.
  destruct (nonzero _); [by intros [= _ <-] |].
  destruct (ReadWord _ _) as [word |]; [| by intros [= _ <-]].
  specialize (Hty word eq_refl).
  destruct (dispatch _ _) as [[[] | e1 |] s2] eqn:Ed.
  - intros E. by destruct (IsBreakPoint_done _ _ _ _ E) as [_ [b [=]]].
  - intros [= <- <-].
    exact (dispatch_throws_keep_registers _ Hty _ _ _ Ed).
  - discriminate.
Qed.

End Precise.

Lemma faults_are_precise_witness :
  regs (iteration (Sample.start 0)).2 = regs (Sample.start 0)
  ∧ fregs (iteration (Sample.start 0)).2 = fregs (Sample.start 0)
  ∧ pc (iteration (Sample.start 0)).2 = pc (Sample.start 0).
Proof.
  apply (faults_are_precise (Sample.start 0) E_InvalidInstruction).
  - intros word H. vm_compute in H. injection H as <-. discriminate.
  - vm_compute. reflexivity.
Defined.

(** * The rounding-mode field *)

Lemma frm_bits_wrap32 v :
  Z.land (Z.shiftr (wrap32 v) 5) 7 = Z.land (Z.shiftr v 5) 7.
Proof.
  unfold wrap32. rewrite <- Z.land_ones by done.
  rewrite Z.shiftr_land, <- Z.land_assoc. reflexivity.
Qed.

Lemma frm_bits_set_flag v flag :
  0 ≤ flag < 32 →
  Z.land (Z.shiftr (Z.lor v flag) 5) 7 = Z.land (Z.shiftr v 5) 7.
Proof.
  intros Hf. rewrite Z.shiftr_lor.
  rewrite (Z.shiftr_div_pow2 flag) by done.
  rewrite (Z.div_small flag) by done. by rewrite Z.lor_0_r.
Qed.

Lemma frm_bits_clear_flags v :
  Z.land (Z.shiftr (Z.land v (wrap32 (Z.lnot CSR_FCSR_FLAGS))) 5) 7
  = Z.land (Z.shiftr v 5) 7.
Proof. rewrite Z.shiftr_land, <- Z.land_assoc. reflexivity. Qed.

Section RoundingMode.

Context {Memory FEnv : Type}.
Context `{!MemoryBus Memory} `{!HostFP FEnv} `{!Externals Memory}.

Local Abbreviation VM := (VM Memory FEnv).
Local Abbreviation M := (M Memory FEnv).

#[global] Instance same_frm_preorder :
  PreOrder (same_frm (Memory := Memory) (FEnv := FEnv)).
Proof.
  split; [intros s; reflexivity |].
  intros a b c H1 H2. unfold same_frm in *. congruence.
Qed.

Lemma same_frm_insert_missing k (s : VM) :
  csrs s !! k = None → same_frm s (with_csrs (<[k := 0]> (csrs s)) s).
Proof.
  intros Hn. unfold same_frm, frm_field. simpl.
  destruct (decide (k = CSR_FCSR)) as [-> | Hk].
  - by rewrite lookup_insert_eq, Hn.
  - by rewrite lookup_insert_ne.
Qed.

(** Storing into [fcsr] a value with the same bits 7:5 as the one read. *)
Lemma fcsr_update_same_frm (g : Z → Z) :
  (∀ v, Z.land (Z.shiftr (g v) 5) 7 = Z.land (Z.shiftr v 5) 7) →
  keeps same_frm
    (fcsr <- csrs_index CSR_FCSR ;; csrs_assign CSR_FCSR (g fcsr) : M unit).
Proof.
  intros Hg s. unfold bind, csrs_index, csrs_assign, modify, same_frm, frm_field.
  destruct (csrs s !! CSR_FCSR) as [v |] eqn:E; simpl.
  all: rewrite lookup_insert_eq; simpl; by rewrite frm_bits_wrap32, Hg.
Qed.

Lemma fcsr_or_same_frm flag :
  0 ≤ flag < 32 → keeps same_frm (fcsr_or flag : M unit).
Proof.
  intros Hf. apply (fcsr_update_same_frm (λ v, Z.lor v flag)).
  intros v. by apply frm_bits_set_flag.
Qed.

Lemma keeps_assoc {A B C} (R : relation VM) (m : M A) (k : A → M B)
    (h : B → M C) :
  keeps R (bind m (λ a, bind (k a) h)) ↔ keeps R (bind (bind m k) h).
Proof.
  unfold keeps, bind.
  split; intros Hk s; specialize (Hk s);
    destruct (m s) as [[a | e |] s1]; simpl in *; try exact Hk.
Qed.

Ltac frm_leaf :=
  idtac;
  lazymatch goal with
  | |- same_frm _ (with_csrs _ _) => by apply same_frm_insert_missing
  | |- _ => exact eq_refl
  end.

Ltac frm_flags :=
  idtac;
  lazymatch goal with
  | |- keeps _ (fcsr_or _) => apply fcsr_or_same_frm; by vm_compute
  end.

Lemma CheckFloatErrors_same_frm : keeps same_frm (CheckFloatErrors : M bool).
Proof.
  unfold CheckFloatErrors.
  apply keeps_bind; [tc_solve | apply keeps_gets; tc_solve | intros except].
  apply keeps_assoc.
  apply keeps_bind; [tc_solve | | intros ?].
  - apply (fcsr_update_same_frm
             (λ v, Z.land v (wrap32 (Z.lnot CSR_FCSR_FLAGS)))).
    apply frm_bits_clear_flags.
  - walk frm_flags frm_leaf.
Qed.

Ltac frm_special :=
  idtac;
  lazymatch goal with
  | |- keeps _ (fcsr_or _) => apply fcsr_or_same_frm; by vm_compute
  | |- keeps _ CheckFloatErrors => apply CheckFloatErrors_same_frm
  end.

(** X17.  The rounding-mode field of [fcsr] (bits 7:5, which
    [ChangeRoundingMode] reads for the dynamic mode) is changed by the six
    CSR instructions only: the flag updates of [CheckFloatErrors] and
    [SetFloatFlags] in every floating-point instruction leave it as it
    was. *)
Theorem flag_updates_keep_the_rounding_mode instr (s : VM) :
  is_csr_op (type instr) = false →
  frm_field (dispatch instr s).2 = frm_field s.
Proof.
  intros Hty. revert s. change (keeps same_frm (dispatch instr)).
  unfold dispatch.
  destruct (type instr) eqn:Ht; try discriminate Hty.
  all: walk frm_special frm_leaf.
Qed.

End RoundingMode.

Lemma flag_updates_keep_the_rounding_mode_witness :
  frm_field (dispatch Sample.FMIN_S_1_2_2 Sample.nan_lanes).2
  = frm_field Sample.nan_lanes.
Proof.
  apply (flag_updates_keep_the_rounding_mode Sample.FMIN_S_1_2_2
           Sample.nan_lanes).
  reflexivity.
Defined.

(** * Integer arithmetic *)

Lemma AsSigned_range x : - 2 ^ 31 ≤ AsSigned x < 2 ^ 31.
Proof.
  unfold AsSigned, wrap32.
  pose proof (Z.mod_pos_bound x (2 ^ 32) ltac:(lia)).
  destruct (Z.ltb_spec (x mod 2 ^ 32) (2 ^ 31)); lia.
Qed.

Lemma wrap32_AsSigned x : wrap32 (AsSigned x) = wrap32 x.
Proof.
  unfold AsSigned, wrap32.
  destruct (Z.ltb_spec (x mod 2 ^ 32) (2 ^ 31)).
  - apply Z.mod_mod. lia.
  - rewrite <- (Z.mod_add _ 1) by lia.
    replace (x mod 2 ^ 32 - 2 ^ 32 + 1 * 2 ^ 32) with (x mod 2 ^ 32) by lia.
    apply Z.mod_mod. lia.
Qed.

Lemma AsSigned_small x : - 2 ^ 31 ≤ x < 2 ^ 31 → AsSigned x = x.
Proof.
  intros Hx. unfold AsSigned, wrap32.
  destruct (Z_lt_le_dec x 0).
  - rewrite <- (Z.mod_add _ 1) by lia.
    rewrite (Z.mod_small (x + 1 * 2 ^ 32)) by lia.
    destruct (Z.ltb_spec (x + 1 * 2 ^ 32) (2 ^ 31)); lia.
  - rewrite Z.mod_small by lia.
    destruct (Z.ltb_spec x (2 ^ 31)); lia.
Qed.

Lemma AsSigned_wrap32 x : AsSigned (wrap32 x) = AsSigned x.
Proof. unfold AsSigned, wrap32. by rewrite Z.mod_mod by lia. Qed.

Lemma wrap32_mul_signed a b : wrap32 (AsSigned a * AsSigned b) = wrap32 (a * b).
Proof.
  unfold wrap32. rewrite Z.mul_mod by lia.
  fold (wrap32 (AsSigned a)). fold (wrap32 (AsSigned b)).
  rewrite !wrap32_AsSigned. unfold wrap32. by rewrite <- Z.mul_mod by lia.
Qed.

(** The quotient of two [int32_t] fits [int32_t] but for [INT_MIN / -1]. *)
Lemma quot_range a b :
  - 2 ^ 31 ≤ a < 2 ^ 31 → - 2 ^ 31 ≤ b < 2 ^ 31 → b ≠ 0 →
  ¬ (a = - 2 ^ 31 ∧ b = -1) → - 2 ^ 31 ≤ a ÷ b < 2 ^ 31.
Proof.
  intros Ha Hb Hb0 Hov.
  pose proof (Z.quot_abs a b Hb0) as Hq.
  assert (Z.abs a ÷ Z.abs b ≤ Z.abs a).
  { apply Z.quot_le_upper_bound; nia. }
  destruct (Z.eq_dec (Z.abs b) 1) as [E1 | N1].
  - rewrite E1, Z.quot_1_r in Hq.
    destruct (Z.eq_dec b 1) as [-> | ]; [rewrite Z.quot_1_r; lia |].
    assert (b = -1) as -> by lia.
    assert (a ≠ - 2 ^ 31) by tauto.
    lia.
  - assert (Z.abs a ÷ Z.abs b ≤ Z.abs a ÷ 2).
    { apply Z.quot_le_compat_l; lia. }
    assert (Z.abs a ÷ 2 < 2 ^ 31).
    { apply Z.quot_lt_upper_bound; lia. }
    lia.
Qed.

Lemma land_top_bit k y :
  0 ≤ k → 0 ≤ y < 2 ^ (k + 1) → Z.land y (2 ^ k) = (y / 2 ^ k) * 2 ^ k.
Proof.
  intros Hk Hy. apply Z.bits_inj'. intros n Hn.
  rewrite Z.land_spec, Z.pow2_bits_eqb by done.
  destruct (Z.lt_ge_cases n k) as [Hlt | Hge].
  - rewrite Z.mul_pow2_bits_low by done.
    rewrite (proj2 (Z.eqb_neq k n)) by lia. apply andb_false_r.
  - rewrite Z.mul_pow2_bits by lia.
    rewrite Z.div_pow2_bits by lia.
    replace (n - k + k) with n by lia.
    destruct (Z.eqb_spec k n) as [-> | Hne]; [apply andb_true_r |].
    rewrite andb_false_r.
    destruct (Z.eq_dec y 0) as [-> | Hy0]; [by rewrite Z.bits_0 |].
    rewrite Z.bits_above_log2; [done | lia |].
    assert (Z.log2 y < k + 1) by (apply Z.log2_lt_pow2; lia). lia.
Qed.

Lemma lxor_high_low a b k :
  0 ≤ k → 0 ≤ b < 2 ^ k → Z.lxor (a * 2 ^ k) b = a * 2 ^ k + b.
Proof.
  intros Hk Hb. rewrite <- lor_high_low by done. apply Z.lxor_lor.
  apply Z.bits_inj'; intros n Hn; rewrite Z.land_spec, Z.bits_0.
  destruct (Z.lt_ge_cases n k) as [Hlt | Hge].
  { by rewrite Z.mul_pow2_bits_low by lia. }
  destruct (Z.eq_dec b 0) as [-> | Hb0];
    [by rewrite Z.bits_0, andb_false_r |].
  rewrite (Z.bits_above_log2 b n), andb_false_r; try lia.
  assert (Z.log2 b < k) by (apply Z.log2_lt_pow2; lia). lia.
Qed.

Lemma top_bit_split k y :
  0 ≤ k → 0 ≤ y < 2 ^ (k + 1) →
  0 ≤ y / 2 ^ k < 2 ∧ 0 ≤ y mod 2 ^ k < 2 ^ k
  ∧ y = (y / 2 ^ k) * 2 ^ k + y mod 2 ^ k.
Proof.
  intros Hk Hy.
  assert (0 < 2 ^ k) by (apply Z.pow_pos_nonneg; lia).
  rewrite Z.pow_add_r in Hy by lia.
  pose proof (Z.div_mod y (2 ^ k) ltac:(lia)).
  pose proof (Z.mod_pos_bound y (2 ^ k) ltac:(lia)).
  repeat split; try lia.
  - apply Z.div_pos; lia.
  - apply Z.div_lt_upper_bound; lia.
Qed.

Lemma join_div_mod k h m :
  0 ≤ k → 0 ≤ m < 2 ^ k →
  (h * 2 ^ k + m) / 2 ^ k = h ∧ (h * 2 ^ k + m) mod 2 ^ k = m.
Proof.
  intros Hk Hm. assert (0 < 2 ^ k) by (apply Z.pow_pos_nonneg; lia).
  split.
  - rewrite Z.div_add_l by lia. rewrite Z.div_small by done. lia.
  - rewrite Z.add_comm, Z.mod_add by lia. by apply Z.mod_small.
Qed.

Lemma lor_1_ones j : 0 < j → Z.lor 1 (Z.ones j) = Z.ones j.
Proof.
  intros Hj. apply Z.bits_inj'. intros n Hn. rewrite Z.lor_spec.
  destruct (Z.eq_dec n 0) as [-> | Hn0].
  - by rewrite Z.ones_spec_low by lia.
  - change 1 with (2 ^ 0). rewrite Z.pow2_bits_eqb by done.
    by rewrite (proj2 (Z.eqb_neq 0 n)) by lia.
Qed.

(** [SignExtend] reads its argument as a two's-complement number of
    [bit + 1] bits. *)
Lemma SignExtend_signed bit v :
  0 ≤ bit < 31 → 0 ≤ v < 2 ^ (bit + 1) →
  AsSigned (SignExtend v bit) = if v <? 2 ^ bit then v else v - 2 ^ (bit + 1).
Proof.
  intros Hbit Hv.
  assert (Hp : 0 < 2 ^ bit) by (apply Z.pow_pos_nonneg; lia).
  assert (Hlt : 2 ^ (bit + 1) ≤ 2 ^ 31) by (apply Z.pow_le_mono_r; lia).
  assert (Hs : 2 ^ (bit + 1) = 2 * 2 ^ bit) by (rewrite Z.pow_add_r; lia).
  destruct (top_bit_split bit v ltac:(lia) Hv) as (Hh & Hm & Ev).
  unfold SignExtend. cbv zeta.
  assert (H1 : wrap32 (Z.shiftl 1 bit) = 2 ^ bit).
  { rewrite Z.shiftl_mul_pow2 by lia. unfold wrap32. rewrite Z.mod_small; lia. }
  rewrite H1, land_top_bit by lia.
  assert (Hsign : wrap32 (Z.shiftl (2 ^ 32 - 1) bit)
                  = Z.ones (32 - bit) * 2 ^ bit).
  { rewrite Z.shiftl_mul_pow2 by lia. unfold wrap32.
    rewrite Z.ones_equiv.
    assert (E : 2 ^ 32 = 2 ^ (32 - bit) * 2 ^ bit).
    { rewrite <- Z.pow_add_r by lia. f_equal. lia. }
    assert (0 < 2 ^ (32 - bit)) by (apply Z.pow_pos_nonneg; lia).
    replace ((2 ^ 32 - 1) * 2 ^ bit)
      with (Z.pred (2 ^ (32 - bit)) * 2 ^ bit + (2 ^ bit - 1) * 2 ^ 32) by lia.
    rewrite Z.mod_add by lia. apply Z.mod_small. nia. }
  assert (v / 2 ^ bit = 0 ∨ v / 2 ^ bit = 1) as [E | E] by lia; rewrite E in *.
  - cbn [nonzero Z.mul Z.eqb negb].
    destruct (Z.ltb_spec v (2 ^ bit)); [| lia]. apply AsSigned_small. lia.
  - replace (nonzero (1 * 2 ^ bit)) with true
      by (unfold nonzero; symmetry; apply negb_true_iff, Z.eqb_neq; lia).
    destruct (Z.ltb_spec v (2 ^ bit)); [lia |].
    rewrite Hsign. rewrite Ev at 1.
    rewrite <- (lor_high_low 1) by lia.
    rewrite (Z.lor_comm (1 * 2 ^ bit)), <- Z.lor_assoc, Z.lor_comm.
    rewrite <- !Z.shiftl_mul_pow2 by lia.
    rewrite <- Z.shiftl_lor, lor_1_ones by lia.
    rewrite Z.shiftl_mul_pow2 by lia.
    rewrite lor_high_low by lia.
    rewrite Z.ones_equiv.
    assert (E32 : 2 ^ 32 = 2 ^ (32 - bit) * 2 ^ bit).
    { rewrite <- Z.pow_add_r by lia. f_equal. lia. }
    unfold AsSigned, wrap32.
    rewrite Z.mod_small by nia.
    destruct (Z.ltb_spec (Z.pred (2 ^ (32 - bit)) * 2 ^ bit + v mod 2 ^ bit)
                         (2 ^ 31));
      nia.
Qed.

Lemma clear_bit_0 x : 0 ≤ x < 2 ^ 32 → Z.land x 0xfffffffe = 2 * (x / 2).
Proof.
  intros Hx.
  change 0xfffffffe with (Z.ones 32 - 1).
  apply Z.bits_inj'. intros n Hn.
  rewrite Z.land_spec.
  replace (2 * (x / 2)) with (x / 2 * 2 ^ 1) by lia.
  rewrite Z.mul_pow2_bits by lia.
  destruct (Z.eq_dec n 0) as [-> | Hn0].
  { rewrite (Z.testbit_neg_r (x / 2)) by lia. apply andb_false_r. }
  replace (x / 2) with (x / 2 ^ 1) by (f_equal).
  rewrite Z.div_pow2_bits by lia. replace (n - 1 + 1) with n by lia.
  destruct (Z.lt_ge_cases n 32) as [Hlt | Hge].
  - replace (Z.ones 32 - 1) with (Z.ones 31 * 2 ^ 1) by reflexivity.
    rewrite Z.mul_pow2_bits by lia. rewrite Z.ones_spec_low by lia.
    apply andb_true_r.
  - destruct (Z.eq_dec x 0) as [-> | Hx0]; [by rewrite Z.bits_0 |].
    rewrite (Z.bits_above_log2 x n); [done | lia |].
    assert (Z.log2 x < 32) by (apply Z.log2_lt_pow2; lia). lia.
Qed.

Section Arithmetic.

Context {Memory FEnv : Type}.
Context `{!MemoryBus Memory} `{!HostFP FEnv} `{!Externals Memory}.

Local Abbreviation VM := (VM Memory FEnv).
Local Abbreviation M := (M Memory FEnv).

Lemma result_of_set_reg (instr : RVInstruction) (s : VM) v :
  dispatch instr s = set_reg (rd instr) v s → result_of instr s = wrap32 v.
Proof.
  intros E. unfold result_of. rewrite E. unfold set_reg, modify. simpl.
  apply vlookup_insert.
Qed.

(** X18.  MUL leaves the low word and MULHU, MULH and MULHSU the high
    word of the exact product of the operands read as unsigned by
    unsigned, signed by signed and signed by unsigned: high word times
    2^32 plus low word is the product. *)
Theorem multiply_high_and_low_words d r1 r2 r3 imm m (s : VM) :
  let op t := mkInstr t d r1 r2 r3 imm m in
  let a := regs s !!! r1 in
  let b := regs s !!! r2 in
  0 ≤ a < 2 ^ 32 → 0 ≤ b < 2 ^ 32 →
  result_of (op MULHU) s * 2 ^ 32 + result_of (op MUL) s = a * b
  ∧ AsSigned (result_of (op MULH) s) * 2 ^ 32 + result_of (op MUL) s
    = AsSigned a * AsSigned b
  ∧ AsSigned (result_of (op MULHSU) s) * 2 ^ 32 + result_of (op MUL) s
    = AsSigned a * b.
Proof.
  intros op a b Ha Hb.
  rewrite (result_of_set_reg (op MUL) s (AsUnsigned (AsSigned a * AsSigned b)))
    by reflexivity.
  rewrite (result_of_set_reg (op MULHU) s (Z.shiftr (wrap64 (a * b)) 32))
    by reflexivity.
  rewrite (result_of_set_reg (op MULH) s
             (AsUnsigned (Z.shiftr (AsSigned a * AsSigned b) 32))) by reflexivity.
  rewrite (result_of_set_reg (op MULHSU) s
             (AsUnsigned (Z.shiftr (as_int64 (wrap64 (AsSigned a) * b)) 32)))
    by reflexivity.
  unfold AsUnsigned. rewrite !AsSigned_wrap32.
  pose proof (AsSigned_range a) as Hsa. pose proof (AsSigned_range b) as Hsb.
  assert (Hlo : wrap32 (wrap32 (AsSigned a * AsSigned b)) = (a * b) mod 2 ^ 32).
  { rewrite wrap32_mul_signed. unfold wrap32. apply Z.mod_mod. lia. }
  rewrite Hlo. clear Hlo.
  rewrite !Z.shiftr_div_pow2 by lia.
  repeat split.
  - unfold wrap64. rewrite (Z.mod_small (a * b)) by nia.
    unfold wrap32. rewrite Z.mod_small.
    + pose proof (Z.div_mod (a * b) (2 ^ 32) ltac:(lia)). lia.
    + split; [apply Z.div_pos; nia |].
      apply Z.div_lt_upper_bound; nia.
  - rewrite AsSigned_small.
    + fold (wrap32 (a * b)). rewrite <- wrap32_mul_signed. unfold wrap32.
      pose proof (Z.div_mod (AsSigned a * AsSigned b) (2 ^ 32) ltac:(lia)). lia.
    + split; [apply Z.div_le_lower_bound; nia |].
      apply Z.div_lt_upper_bound; nia.
  - assert (Hp : as_int64 (wrap64 (AsSigned a) * b) = AsSigned a * b).
    { unfold as_int64, wrap64.
      rewrite Z.mul_mod_idemp_l by lia.
      destruct (Z_lt_le_dec (AsSigned a * b) 0).
      - rewrite <- (Z.mod_add _ 1) by lia.
        rewrite (Z.mod_small (AsSigned a * b + 1 * 2 ^ 64)) by nia.
        destruct (Z.ltb_spec (AsSigned a * b + 1 * 2 ^ 64) (2 ^ 63)); nia.
      - rewrite Z.mod_small by nia.
        destruct (Z.ltb_spec (AsSigned a * b) (2 ^ 63)); nia. }
    rewrite Hp. rewrite AsSigned_small.
    + assert (Hm : (a * b) mod 2 ^ 32 = (AsSigned a * b) mod 2 ^ 32).
      { rewrite (Z.mul_mod (AsSigned a)) by lia.
        fold (wrap32 (AsSigned a)). rewrite wrap32_AsSigned. unfold wrap32.
        by rewrite <- Z.mul_mod by lia. }
      rewrite Hm.
      pose proof (Z.div_mod (AsSigned a * b) (2 ^ 32) ltac:(lia)). lia.
    + split; [apply Z.div_le_lower_bound; nia |].
      apply Z.div_lt_upper_bound; nia.
Qed.

(** X19.  DIV, DIVU, REM and REMU throw on a zero divisor and leave the
    state as it was; [rd] is not written. *)
Theorem division_by_zero_throws instr (s : VM) :
  is_division (type instr) = true → regs s !!! rs2 instr = 0 →
  dispatch instr s = (Throw E_DivByZero, s).
Proof.
  intros Ht Hz. unfold dispatch.
  destruct (type instr); try discriminate Ht;
    unfold exec_div_signed, exec_div_unsigned, bind, reg, gets, throw;
    cbn [fst snd]; rewrite Hz; reflexivity.
Qed.

(** X20.  With a nonzero divisor and apart from [INT_MIN / -1], the
    quotient and remainder recompose the dividend: DIV and REM as signed
    numbers (quotient truncated toward zero, remainder smaller than the
    divisor in magnitude and with the sign of the dividend), DIVU and REMU
    as unsigned numbers. *)
Theorem quotient_and_remainder_recompose d r1 r2 r3 imm m (s : VM) :
  let op t := mkInstr t d r1 r2 r3 imm m in
  let a := regs s !!! r1 in
  let b := regs s !!! r2 in
  0 ≤ a < 2 ^ 32 → 0 < b < 2 ^ 32 → ¬ (a = 2 ^ 31 ∧ b = 2 ^ 32 - 1) →
  (AsSigned (result_of (op DIV) s) * AsSigned b + AsSigned (result_of (op REM) s)
     = AsSigned a
   ∧ Z.abs (AsSigned (result_of (op REM) s)) < Z.abs (AsSigned b)
   ∧ 0 ≤ AsSigned (result_of (op REM) s) * AsSigned a)
  ∧ (result_of (op DIVU) s * b + result_of (op REMU) s = a
     ∧ 0 ≤ result_of (op REMU) s < b).
Proof.
  intros op a b Ha Hb Hov.
  pose proof (AsSigned_range a) as Hsa. pose proof (AsSigned_range b) as Hsb.
  assert (Hb0 : AsSigned b ≠ 0).
  { unfold AsSigned, wrap32. rewrite Z.mod_small by lia.
    destruct (Z.ltb_spec b (2 ^ 31)); lia. }
  assert (Hov' : ¬ (AsSigned a = - 2 ^ 31 ∧ AsSigned b = -1)).
  { intros [E1 E2]. apply Hov. revert E1 E2. unfold AsSigned, wrap32.
    rewrite !Z.mod_small by lia.
    destruct (Z.ltb_spec a (2 ^ 31)), (Z.ltb_spec b (2 ^ 31)); lia. }
  assert (Hsigned : ∀ f, dispatch (op (if f : bool then DIV else REM)) s
            = set_reg d (AsUnsigned ((if f then Z.quot else Z.rem)
                                       (AsSigned a) (AsSigned b))) s).
  { intros f. unfold dispatch.
    destruct f; cbn [type op]; unfold exec_div_signed, bind, reg, gets;
      cbn [fst snd rs1 rs2 rd op]; fold a b;
      rewrite (proj2 (Z.eqb_neq _ _) Hb0).
    all: destruct (Z.eqb_spec (AsSigned a) INT32_MIN) as [E1 |]; [| reflexivity].
    all: destruct (Z.eqb_spec (AsSigned b) (-1)) as [E2 |]; [| reflexivity].
    all: exfalso; apply Hov'; split; [exact E1 | exact E2]. }
  assert (Hunsigned : ∀ f, dispatch (op (if f : bool then DIVU else REMU)) s
            = set_reg d ((if f then Z.div else Z.modulo) a b) s).
  { intros f. unfold dispatch.
    destruct f; cbn [type op]; unfold exec_div_unsigned, bind, reg, gets;
      cbn [fst snd rs1 rs2 rd op]; fold a b;
      rewrite (proj2 (Z.eqb_neq b 0)) by lia; reflexivity. }
  rewrite (result_of_set_reg (op DIV) s _ (Hsigned true)).
  rewrite (result_of_set_reg (op REM) s _ (Hsigned false)).
  rewrite (result_of_set_reg (op DIVU) s _ (Hunsigned true)).
  rewrite (result_of_set_reg (op REMU) s _ (Hunsigned false)).
  unfold AsUnsigned. rewrite !AsSigned_wrap32.
  pose proof (quot_range _ _ Hsa Hsb Hb0 Hov') as Hq.
  pose proof (Z.rem_bound_abs (AsSigned a) (AsSigned b) Hb0) as Hr.
  pose proof (Z.quot_rem' (AsSigned a) (AsSigned b)) as Hqr.
  pose proof (Z.rem_sign_mul (AsSigned a) (AsSigned b) Hb0) as Hs.
  rewrite (AsSigned_small (_ ÷ _)) by exact Hq.
  rewrite (AsSigned_small (Z.rem _ _)) by lia.
  split; [split; [lia | split; [exact Hr | exact Hs]] |].
  pose proof (Z.mod_pos_bound a b ltac:(lia)) as Hm.
  pose proof (Z.div_mod a b ltac:(lia)) as Hd.
  assert (0 ≤ a / b ≤ a).
  { split; [apply Z.div_pos; lia |]. apply Z.div_le_upper_bound; nia. }
  unfold wrap32. rewrite !Z.mod_small by lia. lia.
Qed.

(** X21.  LB and LH extend the sign of what the bus returns: when the
    bus answers with an 8-bit (16-bit) value, the instruction completes
    and [rd], read as a signed number, is that value read as a
    two's-complement number of 8 (16) bits. *)
Theorem signed_loads_sign_extend instr read n v (s : VM) :
  signed_load (type instr) = Some (read, n) →
  read (wrap32 (regs s !!! rs1 instr + immediate instr)) (memory s) = Some v →
  0 ≤ v < 2 ^ n →
  (dispatch instr s).1 = Done tt
  ∧ AsSigned (result_of instr s) = if v <? 2 ^ (n - 1) then v else v - 2 ^ n.
Proof.
  intros Ht Hread Hv. unfold result_of, dispatch.
  destruct (type instr); try discriminate Ht; injection Ht as <- <-.
  all: unfold exec_load, bind, reg, gets, bus_read, set_reg, modify;
    cbn [fst snd]; rewrite Hread; cbn [fst snd regs with_regs];
    rewrite vlookup_insert, AsSigned_wrap32; split; [reflexivity |].
  - by apply (SignExtend_signed 7).
  - by apply (SignExtend_signed 15).
Qed.

(** X22.  JALR always completes; it jumps to [rs1 + immediate] (in
    32-bit arithmetic) with bit 0 cleared and leaves the address of the
    next instruction in [rd].  The target is computed from the old value
    of [rs1], also when [rd] is the same register. *)
Theorem jalr_clears_bit_0_and_links instr (s : VM) :
  type instr = JALR →
  let target := wrap32 (regs s !!! rs1 instr + immediate instr) in
  let s' := (dispatch instr s).2 in
  (dispatch instr s).1 = Done tt
  ∧ pc s' = 2 * (target / 2)
  ∧ regs s' !!! rd instr = wrap32 (pc s + 4).
Proof.
  intros Ht. unfold dispatch. rewrite Ht.
  unfold bind, reg, gets, set_pc, set_reg, modify.
  cbn [fst snd regs with_regs pc with_pc].
  rewrite vlookup_insert.
  assert (Hb : 0 ≤ wrap32 (regs s !!! rs1 instr + immediate instr) < 2 ^ 32)
    by (apply Z.mod_pos_bound; done).
  repeat split.
  - rewrite clear_bit_0 by exact Hb.
    unfold wrap32 at 1. apply Z.mod_small.
    pose proof (Z.div_mod (wrap32 (regs s !!! rs1 instr + immediate instr)) 2
                  ltac:(lia)).
    pose proof (Z.mod_pos_bound
                  (wrap32 (regs s !!! rs1 instr + immediate instr)) 2 ltac:(lia)).
    lia.
  - unfold wrap32. apply Z.mod_mod. lia.
Qed.

End Arithmetic.

Lemma multiply_high_and_low_words_witness :
  result_of (Examples.r_type MULHU) Examples.sevens * 2 ^ 32
  + result_of (Examples.r_type MUL) Examples.sevens = 7 * 7.
Proof.
  refine (proj1 (multiply_high_and_low_words 1%fin 2%fin 3%fin 0%fin 0 0
                   Examples.sevens _ _)).
  - vm_compute. split; [discriminate | reflexivity].
  - vm_compute. split; [discriminate | reflexivity].
Defined.

Lemma division_by_zero_throws_witness :
  dispatch (Examples.r_type REM) (Sample.start 0)
  = (Throw E_DivByZero, Sample.start 0).
Proof.
  apply (division_by_zero_throws (Examples.r_type REM) (Sample.start 0)).
  - reflexivity.
  - reflexivity.
Defined.

Lemma quotient_and_remainder_recompose_witness :
  result_of (Examples.r_type DIVU) Examples.sevens * 7
  + result_of (Examples.r_type REMU) Examples.sevens = 7.
Proof.
  refine (proj1 (proj2 (quotient_and_remainder_recompose
                          1%fin 2%fin 3%fin 0%fin 0 0 Examples.sevens _ _ _))).
  - vm_compute. split; [discriminate | reflexivity].
  - vm_compute. split; reflexivity.
  - intros [H _]. vm_compute in H. discriminate H.
Defined.

Lemma signed_loads_sign_extend_witness :
  AsSigned (result_of Examples.LB_1 (Sample.start 0xff)) = -1.
Proof.
  refine (proj2 (signed_loads_sign_extend Examples.LB_1 ReadByte 8 0xff
                   (Sample.start 0xff) _ _ _)).
  - reflexivity.
  - vm_compute. reflexivity.
  - vm_compute. split; [discriminate | reflexivity].
Defined.

Lemma jalr_clears_bit_0_and_links_witness :
  pc (dispatch Examples.JALR_1_1 Examples.sevens).2 = 14.
Proof.
  refine (proj1 (proj2 (jalr_clears_bit_0_and_links Examples.JALR_1_1
                          Examples.sevens _))).
  reflexivity.
Defined.

(** * Float lanes as bit patterns *)

Lemma wrap_lnot n y :
  0 ≤ n → 0 ≤ y < 2 ^ n → Z.lnot y mod 2 ^ n = 2 ^ n - 1 - y.
Proof.
  intros Hn Hy. unfold Z.lnot.
  assert (0 < 2 ^ n) by (apply Z.pow_pos_nonneg; lia).
  rewrite <- (Z.mod_add _ 1) by lia.
  rewrite Z.mod_small; lia.
Qed.

(** Sign injection on patterns of [k + 1] bits, in arithmetic. *)
Lemma sign_injection_bits k x y :
  0 ≤ k → 0 ≤ x < 2 ^ (k + 1) → 0 ≤ y < 2 ^ (k + 1) →
  Z.lor (Z.land x (2 ^ k - 1)) (Z.land y (2 ^ k))
    = (y / 2 ^ k) * 2 ^ k + x mod 2 ^ k
  ∧ Z.lor (Z.land x (2 ^ k - 1)) (Z.land (2 ^ (k + 1) - 1 - y) (2 ^ k))
    = (1 - y / 2 ^ k) * 2 ^ k + x mod 2 ^ k
  ∧ Z.lxor x (Z.land y (2 ^ k))
    = ((x / 2 ^ k + y / 2 ^ k) mod 2) * 2 ^ k + x mod 2 ^ k.
Proof.
  intros Hk Hx Hy.
  assert (0 < 2 ^ k) by (apply Z.pow_pos_nonneg; lia).
  destruct (top_bit_split k x Hk Hx) as (Hhx & Hmx & Ex).
  destruct (top_bit_split k y Hk Hy) as (Hhy & Hmy & Ey).
  assert (Hm : Z.land x (2 ^ k - 1) = x mod 2 ^ k).
  { rewrite <- Z.land_ones by done. f_equal. rewrite Z.ones_equiv. lia. }
  rewrite Hm, !land_top_bit; try done.
  2: { rewrite Z.pow_add_r in * by lia. lia. }
  assert (Hn : (2 ^ (k + 1) - 1 - y) / 2 ^ k = 1 - y / 2 ^ k).
  { rewrite Z.pow_add_r by lia.
    replace (2 ^ k * 2 ^ 1 - 1 - y)
      with ((1 - y / 2 ^ k) * 2 ^ k + (2 ^ k - 1 - y mod 2 ^ k)) by lia.
    apply join_div_mod; lia. }
  rewrite Hn.
  repeat split.
  - rewrite Z.lor_comm. by apply lor_high_low.
  - rewrite Z.lor_comm. by apply lor_high_low.
  - rewrite Ex at 1. rewrite <- (lxor_high_low (x / 2 ^ k)) by done.
    rewrite (Z.lxor_comm (x / 2 ^ k * 2 ^ k)), Z.lxor_assoc.
    rewrite Z.lxor_comm.
    assert (Hs : Z.lxor (x / 2 ^ k * 2 ^ k) (y / 2 ^ k * 2 ^ k)
                 = (x / 2 ^ k + y / 2 ^ k) mod 2 * 2 ^ k).
    { assert (x / 2 ^ k = 0 ∨ x / 2 ^ k = 1) as [-> | ->] by lia;
      assert (y / 2 ^ k = 0 ∨ y / 2 ^ k = 1) as [-> | ->] by lia;
      rewrite ?Z.mul_0_l, ?Z.lxor_0_l, ?Z.lxor_0_r, ?Z.lxor_nilpotent;
      reflexivity. }
    rewrite Hs. by apply lxor_high_low.
Qed.

Section FloatBits.

Context {Memory FEnv : Type}.
Context `{!MemoryBus Memory} `{!HostFP FEnv} `{!Externals Memory}.

Local Abbreviation VM := (VM Memory FEnv).
Local Abbreviation M := (M Memory FEnv).

Lemma fval_range w v : 0 ≤ fval w v < 2 ^ (width_bits w - 1 + 1).
Proof. destruct w; simpl; apply Z.mod_pos_bound; done. Qed.

Lemma fval_set_fval w x v :
  0 ≤ x < 2 ^ width_bits w → fval w (set_fval w x v) = x.
Proof.
  intros Hx. destruct w; simpl in *.
  - rewrite u32_set_u32. by apply Z.mod_small.
  - unfold wrap64. rewrite Z.mod_mod by done. by apply Z.mod_small.
Qed.

(** X23.  The six sign-injection instructions do what the ISA asks of
    them on the value of the lane (32 bits for the [_S] forms, 64 for the
    [_D] forms): the result has the magnitude bits of [rs1], and its sign
    bit is the sign of [rs2] (FSGNJ), the opposite sign (FSGNJN) or the
    exclusive or of the two signs (FSGNJX). *)
Theorem sign_injection_takes_magnitude_and_sign instr w f (s : VM) :
  sign_injection (type instr) = Some (w, f) →
  let a := fregs s !!! rs1 instr in
  let b := fregs s !!! rs2 instr in
  let r := fregs (dispatch instr s).2 !!! rd instr in
  magnitude_of w r = magnitude_of w a
  ∧ sign_of w r = f (sign_of w a) (sign_of w b).
Proof.
  intros Ht a b r.
  pose proof (fval_range w a) as Ha. pose proof (fval_range w b) as Hb.
  assert (Hk : 0 ≤ width_bits w - 1) by (destruct w; simpl; lia).
  destruct (sign_injection_bits _ _ _ Hk Ha Hb) as (H1 & H2 & H3).
  destruct (top_bit_split _ _ Hk Ha) as (Hha & Hma & _).
  destruct (top_bit_split _ _ Hk Hb) as (Hhb & Hmb & _).
  assert (Hr : ∀ op h,
    0 ≤ h < 2 →
    op (fval w a) (fval w b)
      = h * 2 ^ (width_bits w - 1) + fval w a mod 2 ^ (width_bits w - 1) →
    dispatch instr s = exec_sgnj w op instr s →
    magnitude_of w r = magnitude_of w a ∧ sign_of w r = h).
  { intros op h Hh Hop Hd. subst r. rewrite Hd.
    unfold exec_sgnj, bind, freg, gets, set_freg, modify.
    cbn [fst snd fregs with_fregs].
    rewrite vlookup_insert. fold a b.
    unfold magnitude_of, sign_of. rewrite fval_set_fval.
    - rewrite Hop.
      destruct (join_div_mod (width_bits w - 1) h _ Hk Hma) as [-> ->]. done.
    - rewrite Hop.
      replace (2 ^ width_bits w) with (2 * 2 ^ (width_bits w - 1)).
      + nia.
      + rewrite <- (Z.pow_succ_r 2) by done. f_equal. lia. }
  unfold dispatch in Hr.
  destruct (type instr); try discriminate Ht; injection Ht as <- <-.
  - apply (Hr (sgnj W32) (sign_of W32 b)); [done | exact H1 | done].
  - apply (Hr (sgnjn W32) (1 - sign_of W32 b)); [unfold sign_of; lia | | done].
    unfold sgnjn, wrapw, wrap32.
    rewrite (wrap_lnot 32 (fval W32 b)); [exact H2 | done | exact Hb].
  - apply (Hr (sgnjx W32) ((sign_of W32 a + sign_of W32 b) mod 2));
      [apply Z.mod_pos_bound; lia | exact H3 | done].
  - apply (Hr (sgnj W64) (sign_of W64 b)); [done | exact H1 | done].
  - apply (Hr (sgnjn W64) (1 - sign_of W64 b)); [unfold sign_of; lia | | done].
    unfold sgnjn, wrapw, wrap64.
    rewrite (wrap_lnot 64 (fval W64 b)); [exact H2 | done | exact Hb].
  - apply (Hr (sgnjx W64) ((sign_of W64 a + sign_of W64 b) mod 2));
      [apply Z.mod_pos_bound; lia | exact H3 | done].
Qed.

(** X24.  FMV.W.X followed by FMV.X.W on the same float lane gives back
    the integer register, as a 32-bit number. *)
Theorem fmv_round_trip to_float to_int (s : VM) :
  type to_float = FMV_W_X → type to_int = FMV_X_W →
  rs1 to_int = rd to_float →
  result_of to_int (dispatch to_float s).2 = wrap32 (regs s !!! rs1 to_float).
Proof.
  intros H1 H2 Hr. unfold result_of, dispatch. rewrite H1, H2.
  unfold bind, freg_update, freg, reg, gets, set_reg, modify, ToUInt32.
  cbn [fst snd regs with_regs fregs with_fregs].
  rewrite vlookup_insert, Hr, !vlookup_insert, u32_set_u32.
  unfold wrap32. rewrite !Z.mod_mod by lia. reflexivity.
Qed.

End FloatBits.

Lemma sign_injection_takes_magnitude_and_sign_witness :
  sign_of W32 (fregs (dispatch (Examples.r_type FSGNJN_S) Sample.nan_lanes).2
                 !!! 1%fin)
  = 1 - sign_of W32 (fregs Sample.nan_lanes !!! 3%fin).
Proof.
  refine (proj2 (sign_injection_takes_magnitude_and_sign
                   (Examples.r_type FSGNJN_S) W32 (λ sa sb, 1 - sb)
                   Sample.nan_lanes _)).
  reflexivity.
Defined.

Lemma fmv_round_trip_witness :
  result_of Examples.FMV_X_W_3_1 (dispatch Sample.FMV_W_X_1_2 Examples.sevens).2
  = wrap32 7.
Proof.
  apply (fmv_round_trip Sample.FMV_W_X_1_2 Examples.FMV_X_W_3_1 Examples.sevens).
  - reflexivity.
  - reflexivity.
  - reflexivity.
Defined.

(** * The page offset *)

Section Offset.

Context {Memory FEnv : Type}.
Context `{!MemoryBus Memory} `{!HostFP FEnv} `{!Externals Memory}.

Local Abbreviation VM := (VM Memory FEnv).
Local Abbreviation M := (M Memory FEnv).

Lemma bits_range lo n x : 0 ≤ lo → 0 ≤ n → 0 ≤ bits lo n x < 2 ^ n.
Proof.
  intros Hlo Hn. rewrite bits_div_mod by done.
  apply Z.mod_pos_bound. by apply Z.pow_pos_nonneg.
Qed.

Lemma wp_ReadTLBEntry address (Q : Z → VM → Prop) (s : VM) :
  (∀ pte, Q pte s) → wp True (ReadTLBEntry address) Q s.
Proof.
  intros HQ. unfold ReadTLBEntry. apply wp_bind, wp_gets.
  destruct (PeekWord _ _); [| apply wp_throw].
  destruct (_ || _); [apply wp_throw | apply wp_ret, HQ].
Qed.

(** X25.  A translation that succeeds returns a 32-bit address with the
    page offset of the virtual address: the low 12 bits pass through
    unchanged, for a 4 KiB page and for a superpage alike. *)
Theorem translation_keeps_the_page_offset address is_write pa (s s' : VM) :
  TranslateMemoryAddress address is_write s = (Done pa, s') →
  0 ≤ pa < 2 ^ 32 ∧ pa mod 2 ^ 12 = address mod 2 ^ 12.
Proof.
  intros E.
  refine (wp_result True _
            (λ pa _, 0 ≤ pa < 2 ^ 32 ∧ pa mod 2 ^ 12 = address mod 2 ^ 12)
            s pa s' _ E).
  clear E.
  pose proof (bits_range 0 12 address ltac:(lia) ltac:(lia)) as Ho.
  pose proof (bits_range 12 10 address ltac:(lia) ltac:(lia)) as Hv.
  assert (Eo : address mod 2 ^ 12 = bits 0 12 address).
  { rewrite bits_div_mod by lia. by rewrite Z.div_1_r. }
  rewrite Eo. clear Eo.
  unfold TranslateMemoryAddress. cbv zeta.
  generalize dependent (bits 0 12 address). intros offset Ho.
  generalize dependent (bits 12 10 address). intros vpn_0 Hv.
  apply wp_bind, wp_gets.
  destruct (csrs s !! CSR_SATP) as [satp |]; [| apply wp_throw].
  apply wp_bind, wp_ReadTLBEntry. intros ppn_1.
  assert (Hleaf : ∀ leaf super,
    wp True
      (if super && negb (TLBEntry.PPN_0 leaf =? 0) then throw E_PPNPageFault
       else if negb (TLBEntry.A leaf) || (TLBEntry.D leaf && is_write)
       then throw E_PageFault
       else if super then
         ret (Z.lor (Z.lor (wrap32 (Z.shiftl (TLBEntry.PPN_1 leaf) 22))
                           (Z.shiftl vpn_0 12)) offset)
       else ret (Z.lor (wrap32 (Z.shiftl (TLBEntry.PPN leaf) 12)) offset) : M Z)
      (λ pa _, 0 ≤ pa < 2 ^ 32 ∧ pa mod 2 ^ 12 = offset) s).
  { intros leaf super.
    destruct (super && _); [apply wp_throw |].
    destruct (_ || _); [apply wp_throw |].
    destruct super; apply wp_ret.
    - rewrite superpage_address by done.
      change (2 ^ 32) with (2 ^ 10 * 2 ^ 22).
      rewrite Z.mul_mod_distr_r by lia.
      pose proof (Z.mod_pos_bound (TLBEntry.PPN_1 leaf) (2 ^ 10) ltac:(lia)).
      split; [lia |].
      replace (TLBEntry.PPN_1 leaf mod 2 ^ 10 * 2 ^ 22 + vpn_0 * 2 ^ 12 + offset)
        with (offset + (TLBEntry.PPN_1 leaf mod 2 ^ 10 * 2 ^ 10 + vpn_0) * 2 ^ 12)
        by lia.
      rewrite Z.mod_add by lia. apply Z.mod_small. lia.
    - rewrite page_address by done.
      change (2 ^ 32) with (2 ^ 20 * 2 ^ 12).
      rewrite Z.mul_mod_distr_r by lia.
      pose proof (Z.mod_pos_bound (TLBEntry.PPN leaf) (2 ^ 20) ltac:(lia)).
      split; [lia |].
      rewrite Z.add_comm, Z.mod_add by lia. apply Z.mod_small. lia. }
  apply wp_bind.
  destruct (TLBEntry.IsLeaf ppn_1).
  - apply wp_ret. apply Hleaf.
  - apply wp_bind, wp_ReadTLBEntry. intros leaf.
    destruct (negb _); [apply wp_throw |]. apply wp_ret. apply Hleaf.
Qed.

End Offset.

Lemma translation_keeps_the_page_offset_witness :
  0x800123 mod 2 ^ 12 = 0x400123 mod 2 ^ 12.
Proof.
  refine (proj2 (translation_keeps_the_page_offset 0x400123 false 0x800123
                   (Sample.boot Sample.page_table 0)
                   (Sample.boot Sample.page_table 0) _)).
  vm_compute. reflexivity.
Defined.

(** * Reset *)

Section Reset.

Context {Memory FEnv : Type}.
Context `{!MemoryBus Memory} `{!HostFP FEnv} `{!Externals Memory}.

Local Abbreviation VM := (VM Memory FEnv).

Lemma VM_ext (a b : VM) :
  regs a = regs b → fregs a = fregs b → pc a = pc b → csrs a = csrs b →
  privilege_level a = privilege_level b → cycles a = cycles b →
  memory a = memory b → fenv a = fenv b → running a = running b →
  break_points a = break_points b → ticks a = ticks b → time a = time b →
  a = b.
Proof. destruct a, b. simpl. by intros -> -> -> -> -> -> -> -> -> -> -> ->. Qed.

Lemma fregs_Setup (s : VM) :
  fregs (Setup s) = vmap (λ f, set_is_double false (set_u32 0 f)) (fregs s).
Proof. reflexivity. Qed.

Lemma csrs_Setup (s : VM) :
  csrs (Setup s) = foldl (λ m k, <[k := 0]> m) (csrs s) setup_csrs.
Proof. reflexivity. Qed.

Lemma set_u32_0_idempotent f :
  set_is_double false (set_u32 0 (set_is_double false (set_u32 0 f)))
  = set_is_double false (set_u32 0 f).
Proof.
  unfold set_is_double at 1 3. cbn [u64 is_double].
  unfold set_u32 at 1. cbn [is_double].
  rewrite upper32_set_is_double, upper32_set_u32. reflexivity.
Qed.

Lemma foldl_insert_idempotent (l : list Z) (m : gmap Z Z) :
  foldl (λ m k, <[k := 0]> m) (foldl (λ m k, <[k := 0]> m) m l) l
  = foldl (λ m k, <[k := 0]> m) m l.
Proof.
  apply map_eq. intros k. rewrite !lookup_foldl_insert.
  by destruct (bool_decide _).
Qed.

(** X26.  [Setup] is idempotent, and it resets less than the whole hart:
    [pc], the bus, the break points, the running flag and the timer are
    as they were, every CSR outside its list keeps its value or its
    absence ([fcsr] with the accrued flags and the identity CSRs among
    them), and the upper half of every float lane survives. *)
Theorem Setup_is_idempotent_and_keeps_identity (s : VM) :
  Setup (Setup s) = Setup s
  ∧ pc (Setup s) = pc s ∧ memory (Setup s) = memory s
  ∧ break_points (Setup s) = break_points s ∧ running (Setup s) = running s
  ∧ time (Setup s) = time s
  ∧ (∀ k, k ∉ setup_csrs → csrs (Setup s) !! k = csrs s !! k)
  ∧ (∀ r, upper32 (fregs (Setup s) !!! r) = upper32 (fregs s !!! r)).
Proof.
  split; [| do 5 (split; [reflexivity |]); split].
  - apply VM_ext; try reflexivity.
    + rewrite !fregs_Setup.
      apply vec_eq. intros i. rewrite !vlookup_map. apply set_u32_0_idempotent.
    + rewrite !csrs_Setup. apply foldl_insert_idempotent.
  - intros k Hk. rewrite csrs_Setup, lookup_foldl_insert.
    by rewrite bool_decide_eq_false_2.
  - intros r. rewrite fregs_Setup, vlookup_map.
    by rewrite upper32_set_is_double, upper32_set_u32.
Qed.

End Reset.
